(** * Telegram MCQ scheduler bot: store, scheduler and admission

    A shallow embedding of the queue/scheduler core of the bot.  The main
    development follows the variant that keeps delivered records in the
    store and stamps them ([posted_at], [telegram_poll_id]); the module
    [Legacy] follows the two older variants ([bot.js] and its sibling) that
    delete a record once it has been delivered.

    Modelling conventions.
    - JavaScript numbers that the code only ever uses as integers (ids,
      timestamps, chat ids, list lengths) are [Z] or [nat].  Where the code
      adds to such a number ([db.nextId++], [Math.max(...) + 1]) the sum is
      rounded as the language rounds it ([js_add]): exact up to 2^53, to
      the nearest double (ties to even) beyond.
    - The JSON file [DB_FILE] is the type [File]: [None] is a missing or
      unparsable file, [Some raw] a parsed document whose two top-level
      fields may be absent.
    - Every [async] function is a computation in the monad [M] (state plus
      exceptions over [World]); one call runs to completion before the next
      handler starts (the single logical timeline of the event loop).  A
      handler that throws leaves the state it had reached.
    - [Date.now()] and the outcomes of the remote calls ([sendPoll],
      [ctx.reply]) are inputs of the operation that consults them. *)

From stdpp Require Import base option list strings sorting pretty.
From Stdlib Require Import ZArith Lia.

Local Open Scope string_scope.
Local Open Scope list_scope.
Local Open Scope Z_scope.

(** ** JavaScript primitives *)

(** Truthiness of the values the code tests with [!x] and [x || y]. *)
Class Falsy (A : Type) := falsy : A → bool.

#[export] Instance Z_falsy : Falsy Z := λ z, Z.eqb z 0.
#[export] Instance string_falsy : Falsy string :=
  λ s, match s with EmptyString => true | _ => false end.

(** [x || null] on a value that may be [undefined]/[null] ([None]). *)
Definition or_null {A} `{Falsy A} (x : option A) : option A :=
  match x with
  | Some a => if falsy a then None else Some a
  | None => None
  end.

(** The result of [Number(s)]: the code inspects it with
    [Number.isInteger] first and compares it only when that test passed, so
    every non-integer value (NaN, infinities, fractions) behaves alike. *)
Inductive JsNumber :=
  | JsInt (z : Z)
  | JsNonInt.

Definition isInteger (n : JsNumber) : bool :=
  match n with JsInt _ => true | JsNonInt => false end.

(** [n < k] and [n >= k]; comparisons with NaN are false. *)
Definition js_lt (n : JsNumber) (k : Z) : bool :=
  match n with JsInt z => Z.ltb z k | JsNonInt => false end.
Definition js_ge (n : JsNumber) (k : Z) : bool :=
  match n with JsInt z => Z.leb k z | JsNonInt => false end.

(** [Number(s)] on the strings made of decimal digits only, where it is
    the numeral's value (0 for the empty string).  Every other string is reported as a non-integer,
    which is not what the language does on, say, ["1e3"]: this function is
    used on digit strings only. *)
Fixpoint digits_value (acc : Z) (s : string) : option Z :=
  match s with
  | EmptyString => Some acc
  | String c rest =>
      let n := Z.of_nat (Ascii.nat_of_ascii c) in
      if (48 <=? n) && (n <=? 57)
      then digits_value (10 * acc + (n - 48)) rest
      else None
  end.

Definition Number_digits (s : string) : JsNumber :=
  match digits_value 0 s with Some z => JsInt z | None => JsNonInt end.

(** [Array.prototype.pop] and [shift]: the removed element ([None] for
    [undefined] on an empty array) and the remaining array. *)
Definition pop {A} (l : list A) : option A * list A :=
  (last l, removelast l).
Definition shift {A} (l : list A) : option A * list A :=
  (head l, tail l).

(** [Math.max(...xs)] on a non-empty array [x :: xs]. *)
Definition Math_max (x : Z) (xs : list Z) : Z := foldr Z.max x xs.

(** The largest magnitude up to which every integer is a double. *)
Definition MAX_SAFE : Z := 2 ^ 53.

(** The double nearest to an integer, ties going to the even significand:
    integers up to 2^53 in magnitude are doubles; beyond, a double is a
    multiple of the unit [u] of its binade, with a 53-bit significand. *)
Definition round_double (x : Z) : Z :=
  let a := Z.abs x in
  if a <=? MAX_SAFE then x
  else
    let u := 2 ^ (Z.log2 a - 52) in
    let q := a / u in
    let r := a mod u in
    let q' := if 2 * r <? u then q
              else if u <? 2 * r then q + 1
              else if Z.even q then q else q + 1 in
    Z.sgn x * (q' * u).

(** [a + b] on two numbers that are integers: the exact sum, rounded.  (A
    sum beyond the largest double, near 2^1024, would be [Infinity]; no id
    or counter considered below comes near it.) *)
Definition js_add (a b : Z) : Z := round_double (a + b).

(** ** Data model *)

Record MCQ := mkMCQ {
  id : Z;
  question : string;
  options : list string;
  correct_index : JsNumber;
  uploaded_by : option Z;
  uploaded_at : Z;
  posted_at : option Z;
  telegram_poll_id : option string
}.

#[export] Instance JsNumber_eq_dec : EqDecision JsNumber.
Proof. solve_decision. Defined.
#[export] Instance MCQ_eq_dec : EqDecision MCQ.
Proof. solve_decision. Defined.

(** The in-memory document returned by [loadDB]. *)
Record DB := mkDB {
  nextId : Z;
  mcqs : list MCQ
}.

(** The parsed JSON text, before [loadDB] fills in what is absent. *)
Record RawDB := mkRaw {
  raw_nextId : option Z;
  raw_mcqs : option (list MCQ)
}.

Definition File := option RawDB.

Definition ids (l : list MCQ) : list Z := id <$> l.

(** A record is pending when [posted_at === null]. *)
Definition pending (m : MCQ) : Prop := posted_at m = None.

#[export] Instance pending_dec m : Decision (pending m).
Proof. unfold pending. apply _. Defined.

(** The assignments of [markMCQPosted] to one record. *)
Definition stamp (now : Z) (pollId : option string) (m : MCQ) : MCQ :=
  {| id := id m; question := question m; options := options m;
     correct_index := correct_index m; uploaded_by := uploaded_by m;
     uploaded_at := uploaded_at m;
     posted_at := Some now;
     telegram_poll_id := or_null pollId |}.

(** The body of [loadDB]'s [try] block on a parsed document, and its
    [catch] branch. *)
Definition load_doc (f : File) : DB :=
  match f with
  | Some raw =>
      let l := default [] (raw_mcqs raw) in
      let n :=
        match or_null (raw_nextId raw) with
        | Some n => n
        | None =>
            match ids l with
            | [] => 1
            | i :: rest => js_add (Math_max i rest) 1
            end
        end in
      {| nextId := n; mcqs := l |}
  | None => {| nextId := 1; mcqs := [] |}
  end.

(** What [saveDB] leaves in the file. *)
Definition store_doc (db : DB) : File :=
  Some {| raw_nextId := Some (nextId db); raw_mcqs := Some (mcqs db) |}.

(** ** The Telegram side *)

Record Poll := mkPoll { poll_id : option string }.
Record Message := mkMessage { poll : option Poll }.

(** What [await bot.telegram.sendPoll(...)] does: reject, or resolve to a
    response (which the code reads with [res?.poll?.id]). *)
Inductive SendOutcome :=
  | Rejected (err : string)
  | Resolved (res : option Message).

(** What [await ctx.reply(...)] does: resolve, or reject (the chat is
    gone, the network is down, the bot was blocked). *)
Inductive ReplyOutcome :=
  | Delivered
  | Undelivered (err : string).

Inductive Reply :=
  | ReplyPrivateOnly
  | ReplyUsage
  | ReplyNeedParts
  | ReplyInvalidIndex
  | ReplyOptionsRange
  | ReplyQueued (entry_id : Z)
  | ReplyRestarted.

(** Calls that leave the process or hit the store, in order. *)
Inductive Call :=
  | CallSendPoll (m : MCQ)
  | CallMarkPosted (mcq_id : Z) (pollId : option string)
  | CallReply (r : Reply).

#[export] Instance Reply_eq_dec : EqDecision Reply.
Proof. solve_decision. Defined.
#[export] Instance Call_eq_dec : EqDecision Call.
Proof. solve_decision. Defined.

(** ** The monad of handlers: state with exceptions *)

Inductive Res (A : Type) :=
  | Ok (a : A)
  | Throw (err : string).
Arguments Ok {A} a.
Arguments Throw {A} err.

Definition StateExn (S A : Type) : Type := S → Res A * S.

#[export] Instance StateExn_ret {S} : MRet (StateExn S) := λ A a w, (Ok a, w).
#[export] Instance StateExn_bind {S} : MBind (StateExn S) := λ A B k c w,
  match c w with
  | (Ok a, w') => k a w'
  | (Throw e, w') => (Throw e, w')
  end.

Definition gets {S A} (f : S → A) : StateExn S A := λ w, (Ok (f w), w).
Definition modify {S} (f : S → S) : StateExn S unit := λ w, (Ok tt, f w).
Definition throw {S A} (e : string) : StateExn S A := λ w, (Throw e, w).

(** [try { c } catch (err) { h err }]: state changes made before the throw
    stay. *)
Definition try_catch {S A} (c : StateExn S A) (h : string → StateExn S A)
    : StateExn S A := λ w,
  match c w with
  | (Ok a, w') => (Ok a, w')
  | (Throw e, w') => h e w'
  end.

(** The state a computation leaves behind. *)
Definition exec {S A} (c : StateExn S A) (w : S) : S := (c w).2.

(** ** Process state *)

Definition Timer := nat.

Record World := mkWorld {
  db_file : File;                   (* contents of DB_FILE *)
  schedulerHandle : option Timer;   (* let schedulerHandle *)
  schedulerPaused : bool;           (* let schedulerPaused *)
  timers : list Timer;              (* intervals the event loop will fire *)
  timer_seq : Timer;                (* next handle setInterval hands out *)
  spawned : nat;                    (* un-awaited postNextMCQIfAny() calls
                                       that have not run yet *)
  calls : list Call                 (* call log, oldest first *)
}.

(** The process right after the module's top-level [let]s, on a given
    file. *)
Definition boot (f : File) : World :=
  {| db_file := f; schedulerHandle := None; schedulerPaused := true;
     timers := []; timer_seq := 0%nat; spawned := 0%nat; calls := [] |}.

Definition set_file (f : File) (w : World) : World :=
  {| db_file := f; schedulerHandle := schedulerHandle w;
     schedulerPaused := schedulerPaused w; timers := timers w;
     timer_seq := timer_seq w; spawned := spawned w; calls := calls w |}.
Definition set_handle (h : option Timer) (w : World) : World :=
  {| db_file := db_file w; schedulerHandle := h;
     schedulerPaused := schedulerPaused w; timers := timers w;
     timer_seq := timer_seq w; spawned := spawned w; calls := calls w |}.
Definition set_paused (b : bool) (w : World) : World :=
  {| db_file := db_file w; schedulerHandle := schedulerHandle w;
     schedulerPaused := b; timers := timers w;
     timer_seq := timer_seq w; spawned := spawned w; calls := calls w |}.
Definition set_timers (ts : list Timer) (n : Timer) (w : World) : World :=
  {| db_file := db_file w; schedulerHandle := schedulerHandle w;
     schedulerPaused := schedulerPaused w; timers := ts;
     timer_seq := n; spawned := spawned w; calls := calls w |}.
Definition set_spawned (n : nat) (w : World) : World :=
  {| db_file := db_file w; schedulerHandle := schedulerHandle w;
     schedulerPaused := schedulerPaused w; timers := timers w;
     timer_seq := timer_seq w; spawned := n; calls := calls w |}.
Definition log_call (c : Call) (w : World) : World :=
  {| db_file := db_file w; schedulerHandle := schedulerHandle w;
     schedulerPaused := schedulerPaused w; timers := timers w;
     timer_seq := timer_seq w; spawned := spawned w;
     calls := calls w ++ [c] |}.

(** Handlers of the main variant run over [World]. *)
Abbreviation M := (StateExn World).

(** ** JSON "DB" *)

Definition loadDB : M DB := gets (λ w, load_doc (db_file w)).

Definition saveDB (db : DB) : M unit := modify (set_file (store_doc db)).

Definition addMCQ (question : string) (options : list string)
    (correctIndex : JsNumber) (uploadedBy : option Z) (now : Z) : M MCQ :=
  db ← loadDB;
  let entry :=
    {| id := nextId db;
       question := question;
       options := options;
       correct_index := correctIndex;
       uploaded_by := or_null uploadedBy;
       uploaded_at := now;
       posted_at := None;
       telegram_poll_id := None |} in
  saveDB {| nextId := js_add (nextId db) 1; mcqs := mcqs db ++ [entry] |};;
  mret entry.

Definition getNextUnpostedMCQ : M (option MCQ) :=
  db ← loadDB;
  mret (snd <$> list_find pending (mcqs db)).

Definition markMCQPosted (mcq_id : Z) (pollId : option string) (now : Z)
    : M unit :=
  modify (log_call (CallMarkPosted mcq_id pollId));;
  db ← loadDB;
  match list_find (λ m, id m = mcq_id) (mcqs db) with
  | Some (idx, m) =>
      saveDB {| nextId := nextId db;
                mcqs := <[idx := stamp now pollId m]> (mcqs db) |}
  | None => mret tt
  end.

Definition countPendingMCQs : M nat :=
  db ← loadDB;
  mret (length (filter pending (mcqs db))).

(** ** Scheduler (30 seconds) *)

Definition setInterval : M Timer := λ w,
  let h := timer_seq w in
  (Ok h, set_timers (timers w ++ [h]) (S h) w).

Definition clearInterval (h : Timer) : M unit :=
  modify (λ w, set_timers (filter (λ t, t ≠ h) (timers w)) (timer_seq w) w).

Definition pauseScheduler : M unit :=
  h ← gets schedulerHandle;
  match h with
  | Some h => clearInterval h
  | None => mret tt
  end;;
  modify (set_handle None);;
  modify (set_paused true).

Definition sendPoll (net : SendOutcome) (mcq : MCQ) : M (option Message) :=
  modify (log_call (CallSendPoll mcq));;
  match net with
  | Rejected err => throw err
  | Resolved res => mret res
  end.

(** [res?.poll?.id] *)
Definition res_poll_id (res : option Message) : option string :=
  match res with
  | Some r => match poll r with Some p => poll_id p | None => None end
  | None => None
  end.

Definition postNextMCQIfAny (net : SendOutcome) (now : Z) : M unit :=
  mcq ← getNextUnpostedMCQ;
  match mcq with
  | None => pauseScheduler
  | Some mcq =>
      try_catch
        (res ← sendPoll net mcq;
         let pollId := or_null (res_poll_id res) in
         markMCQPosted (id mcq) pollId now)
        (λ err, (* leave unposted to retry next tick *) mret tt)
  end.

(** [postNextMCQIfAny()] without [await]: the call is launched and runs
    after the synchronous caller has finished. *)
Definition spawn_postNextMCQIfAny : M unit :=
  modify (λ w, set_spawned (S (spawned w)) w).

Definition startScheduler : M unit :=
  h ← gets schedulerHandle;
  match h with
  | Some _ => modify (set_paused false)
  | None =>
      modify (set_paused false);;
      spawn_postNextMCQIfAny;;
      h ← setInterval;
      modify (set_handle (Some h))
  end.

(** The start-up IIFE. *)
Definition init : M unit :=
  n ← countPendingMCQs;
  if decide (0 < n)%nat then startScheduler else mret tt.

(** ** Bot commands *)

Definition reply (net : ReplyOutcome) (r : Reply) : M unit :=
  modify (log_call (CallReply r));;
  match net with
  | Delivered => mret tt
  | Undelivered err => throw err
  end.

(** The tail of the upload handler, once its checks have passed: append,
    acknowledge, and restart the scheduler if it is paused.  [ack] and
    [ack'] are the outcomes of its two awaited replies; a rejected reply
    ends the handler there. *)
Definition enqueue (question : string) (options : list string)
    (correctIndex : JsNumber) (from : Z) (now : Z) (ack ack' : ReplyOutcome)
    : M unit :=
  entry ← addMCQ question options correctIndex (Some from) now;
  reply ack (ReplyQueued (id entry));;
  paused ← gets schedulerPaused;
  if paused : bool
  then startScheduler;; reply ack' ReplyRestarted
  else mret tt.

Section Upload.
(** [Number(s)], the string-to-number conversion of the language. *)
Variable Number : string → JsNumber.

(** The two checks between parsing and [addMCQ], in the handler's order;
    [None] when both pass. *)
Definition validate (options : list string) (correctIndex : JsNumber)
    : option Reply :=
  let n := Z.of_nat (length options) in
  if negb (isInteger correctIndex) || js_lt correctIndex 0
     || js_ge correctIndex n
  then Some ReplyInvalidIndex
  else if (n <? 2) || (10 <? n)
  then Some ReplyOptionsRange
  else None.

(** [bot.command('upload', ...)]; [pieces] is
    [payload.split('||').map(p => p.trim())], so an empty payload is the
    one piece [""].  [ack] is the outcome of the first reply the handler
    sends, [ack'] of the second. *)
Definition upload (private : bool) (pieces : list string) (from : Z)
    (now : Z) (ack ack' : ReplyOutcome) : M unit :=
  if negb private then reply ack ReplyPrivateOnly
  else if decide (pieces = [""]) then reply ack ReplyUsage
  else
    let parts := filter (λ p, p ≠ "") pieces in
    if decide (length parts < 3)%nat then reply ack ReplyNeedParts
    else
      let '(index, parts) := pop parts in
      let correctIndex := from_option Number JsNonInt index in
      let '(question, parts) := shift parts in
      let options := parts in
      match validate options correctIndex with
      | Some r => reply ack r
      | None =>
          enqueue (default "" question) options correctIndex from now ack ack'
      end.

(** ** The event loop *)

Inductive Event :=
  | Upload (private : bool) (pieces : list string) (from : Z) (now : Z)
           (ack ack' : ReplyOutcome)
  | TimerFires (h : Timer) (net : SendOutcome) (now : Z)
  | SpawnedRuns (net : SendOutcome) (now : Z).

Definition handle (e : Event) : M unit :=
  match e with
  | Upload private pieces from now ack ack' =>
      upload private pieces from now ack ack'
  | TimerFires h net now =>
      ts ← gets timers;
      if decide (h ∈ ts) then postNextMCQIfAny net now else mret tt
  | SpawnedRuns net now =>
      n ← gets spawned;
      match n with
      | O => mret tt
      | S n' => modify (set_spawned n');; postNextMCQIfAny net now
      end
  end.

(** The events in order; a handler that throws leaves the state it had
    reached, and the loop goes on. *)
Fixpoint run (es : list Event) (w : World) : World :=
  match es with
  | [] => w
  | e :: es => run es (exec (handle e) w)
  end.

(** Every upload of the run gets its first reply through. *)
Definition acks_delivered (es : list Event) : Prop :=
  Forall (λ e, match e with
               | Upload _ _ _ _ ack _ => ack = Delivered
               | _ => True
               end) es.
End Upload.

(** The two scheduler states. *)
Inductive SchedState := PAUSED | RUNNING.

Definition sched_state (w : World) : SchedState :=
  if schedulerPaused w then PAUSED else RUNNING.

(** The process after start-up on a given file. *)
Definition started (f : File) : World := exec init (boot f).

(** ** Read-only commands and the health endpoint *)

Inductive PreviewAnswer :=
  | PreviewPrivateOnly
  | PreviewNone
  | PreviewText (text : string).

Definition newline : string := String (Ascii.ascii_of_nat 10) EmptyString.

(** [i === mcq.correct_index] for an array index [i]. *)
Definition index_is (i : nat) (n : JsNumber) : bool :=
  match n with JsInt z => Z.eqb (Z.of_nat i) z | JsNonInt => false end.

(** The text [bot.command('preview', ...)] builds: a header, then one line
    per option, appended in order by [forEach]. *)
Definition preview_text (mcq : MCQ) : string :=
  let text := "*Next MCQ (id: " +:+ pretty (id mcq) +:+ "):*" +:+ newline
              +:+ question mcq +:+ newline +:+ newline in
  foldl (λ text '(i, o),
           let ok := if index_is i (correct_index mcq) then " ✅" else "" in
           text +:+ pretty i +:+ ". " +:+ o +:+ ok +:+ newline)
        text (imap pair (options mcq)).

(** [bot.command('preview', ...)]; the result is the text it replies with. *)
Definition preview (private : bool) : M PreviewAnswer :=
  if negb private then mret PreviewPrivateOnly
  else
    mcq ← getNextUnpostedMCQ;
    match mcq with
    | None => mret PreviewNone
    | Some mcq => mret (PreviewText (preview_text mcq))
    end.

(** [bot.command('pending', ...)]; the result is the text it replies with. *)
Definition pending_command : M string :=
  n ← countPendingMCQs;
  mret ("Pending: " +:+ pretty n).

(** The JSON body of [GET /healthz]. *)
Record Health := mkHealth {
  health_ok : bool;
  health_schedulerPaused : bool;
  health_pending : nat;
  health_time : string
}.

Definition healthz (iso_now : string) : M Health :=
  paused ← gets schedulerPaused;
  n ← countPendingMCQs;
  mret {| health_ok := true; health_schedulerPaused := paused;
          health_pending := n; health_time := iso_now |}.

(** A series of delivery attempts, each with the outcome of its remote
    call and its clock reading. *)
Fixpoint attempts (outs : list (SendOutcome * Z)) (w : World) : World :=
  match outs with
  | [] => w
  | (net, now) :: outs => attempts outs (exec (postNextMCQIfAny net now) w)
  end.

(** ** The older variants: records are deleted once delivered *)

Module Legacy.

Record MCQ := mkMCQ {
  id : Z;
  question : string;
  options : list string;
  correctIndex : JsNumber;
  uploader : Z
}.

Record DB := mkDB { nextId : Z; mcqs : list MCQ }.
Record RawDB := mkRaw {
  raw_nextId : option Z;
  raw_mcqs : option (list MCQ)
}.
Definition File := option RawDB.

Definition load_doc (f : File) : DB :=
  match f with
  | Some raw =>
      let l := default [] (raw_mcqs raw) in
      let n :=
        match or_null (raw_nextId raw) with
        | Some n => n
        | None =>
            match id <$> l with
            | [] => 1
            | i :: rest => js_add (Math_max i rest) 1
            end
        end in
      {| nextId := n; mcqs := l |}
  | None => {| nextId := 1; mcqs := [] |}
  end.

Definition store_doc (db : DB) : File :=
  Some {| raw_nextId := Some (nextId db); raw_mcqs := Some (mcqs db) |}.

Inductive Reply :=
  | ReplyPrivateOnly
  | ReplyUsage
  | ReplyNeedParts
  | ReplyInvalidIndex
  | ReplyQueued (entry_id : Z).

Record World := mkWorld {
  db_file : File;
  schedulerPaused : bool;           (* let schedulerPaused *)
  schedulerTimer : option Timer;    (* let schedulerTimer *)
  timers : list Timer;
  timer_seq : Timer;
  replies : list Reply
}.

Definition boot (f : File) : World :=
  {| db_file := f; schedulerPaused := true; schedulerTimer := None;
     timers := []; timer_seq := 0%nat; replies := [] |}.

Abbreviation M := (StateExn World).

Definition loadDB : M DB := gets (λ w, load_doc (db_file w)).

Definition saveDB (db : DB) : M unit :=
  modify (λ w,
    {| db_file := store_doc db; schedulerPaused := schedulerPaused w;
       schedulerTimer := schedulerTimer w; timers := timers w;
       timer_seq := timer_seq w; replies := replies w |}).

Definition addMCQ (question : string) (options : list string)
    (correctIndex : JsNumber) (uploader : Z) : M MCQ :=
  db ← loadDB;
  let entry :=
    {| id := nextId db; question := question; options := options;
       correctIndex := correctIndex; uploader := uploader |} in
  saveDB {| nextId := js_add (nextId db) 1; mcqs := mcqs db ++ [entry] |};;
  mret entry.

(** [db.mcqs.length ? db.mcqs.shift() : null]: the [shift] changes the
    copy just loaded, which is then dropped.  ([bot.js] reads
    [db.mcqs[0]] instead.) *)
Definition getNextMCQ : M (option MCQ) :=
  db ← loadDB;
  match mcqs db with
  | [] => mret None
  | _ :: _ =>
      let '(first, rest) := shift (mcqs db) in
      let db := {| nextId := nextId db; mcqs := rest |} in
      mret first
  end.

Definition removeMCQ (mcq_id : Z) : M unit :=
  db ← loadDB;
  saveDB {| nextId := nextId db;
            mcqs := filter (λ q, id q ≠ mcq_id) (mcqs db) |}.

Definition startScheduler : M unit :=
  modify (λ w,
    {| db_file := db_file w; schedulerPaused := false;
       schedulerTimer := schedulerTimer w; timers := timers w;
       timer_seq := timer_seq w; replies := replies w |});;
  modify (λ w,
    let ts := match schedulerTimer w with
              | Some h => filter (λ t, t ≠ h) (timers w)
              | None => timers w
              end in
    let h := timer_seq w in
    {| db_file := db_file w; schedulerPaused := schedulerPaused w;
       schedulerTimer := Some h; timers := ts ++ [h];
       timer_seq := S h; replies := replies w |}).

Definition reply (r : Reply) : M unit :=
  modify (λ w,
    {| db_file := db_file w; schedulerPaused := schedulerPaused w;
       schedulerTimer := schedulerTimer w; timers := timers w;
       timer_seq := timer_seq w; replies := replies w ++ [r] |}).

(** The tail of the upload handler, once its check has passed. *)
Definition enqueue (question : string) (options : list string)
    (correctIndex : JsNumber) (from : Z) : M unit :=
  entry ← addMCQ question options correctIndex from;
  reply (ReplyQueued (id entry));;
  paused ← gets schedulerPaused;
  if paused : bool then startScheduler else mret tt.

Section Upload.
Variable Number : string → JsNumber.

(** The only check between parsing and [addMCQ]. *)
Definition validate (options : list string) (correctIndex : JsNumber)
    : option Reply :=
  let n := Z.of_nat (length options) in
  if negb (isInteger correctIndex) || js_lt correctIndex 0
     || js_ge correctIndex n
  then Some ReplyInvalidIndex
  else None.

(** [bot.command('upload', ...)]; [pieces] is
    [payload.split(/\|\||\||,/).map(p => p.trim())]. *)
Definition upload (private : bool) (pieces : list string) (from : Z)
    : M unit :=
  if negb private then reply ReplyPrivateOnly
  else if decide (pieces = [""]) then reply ReplyUsage
  else
    let parts := filter (λ p, p ≠ "") pieces in
    if decide (length parts < 3)%nat then reply ReplyNeedParts
    else
      let '(index, parts) := pop parts in
      let correctIndex := from_option Number JsNonInt index in
      let '(question, parts) := shift parts in
      let options := parts in
      match validate options correctIndex with
      | Some r => reply r
      | None => enqueue (default "" question) options correctIndex from
      end.
End Upload.

(** [await bot.telegram.sendMessage(...)] and [sendPoll(...)]: the result
    is not used; a rejection is thrown on. *)
Definition sendMessage (net : SendOutcome) : M unit :=
  match net with
  | Rejected err => throw err
  | Resolved _ => mret tt
  end.

Definition sendPoll (net : SendOutcome) : M unit :=
  match net with
  | Rejected err => throw err
  | Resolved _ => mret tt
  end.

(** [postNextQuestion] of [bot.js]: announce in the channel, then post the
    poll, then remove the record.  (The sibling file has no announcement:
    it is this function with an announcement that always resolves.) *)
Definition postNextQuestion (msg poll : SendOutcome) : M unit :=
  mcq ← getNextMCQ;
  match mcq with
  | None =>
      modify (λ w,
        {| db_file := db_file w; schedulerPaused := true;
           schedulerTimer := schedulerTimer w; timers := timers w;
           timer_seq := timer_seq w; replies := replies w |})
  | Some mcq =>
      sendMessage msg;;
      sendPoll poll;;
      removeMCQ (id mcq)
  end.

Section Loop.
Variable Number : string → JsNumber.

Inductive Event :=
  | Upload (private : bool) (pieces : list string) (from : Z)
  | TimerFires (h : Timer) (msg poll : SendOutcome).

Definition handle (e : Event) : M unit :=
  match e with
  | Upload private pieces from => upload Number private pieces from
  | TimerFires h msg poll =>
      ts ← gets timers;
      if decide (h ∈ ts) then postNextQuestion msg poll else mret tt
  end.

(** A rejected handler leaves the state it reached; the loop goes on. *)
Fixpoint run (es : list Event) (w : World) : World :=
  match es with
  | [] => w
  | e :: es => run es (exec (handle e) w)
  end.
End Loop.

End Legacy.

(** ** Predicates on documents and process states *)

(** [next_id] is strictly greater than every assigned id. *)
Definition next_id_fresh (db : DB) : Prop :=
  Forall (λ i, i < nextId db) (ids (mcqs db)).

(** Ids grow along the collection: insertion order is id order. *)
Definition ids_increasing (l : list MCQ) : Prop :=
  StronglySorted Z.lt (ids l).

(** The documents the store produces from an absent file: ids start at 1,
    grow along the collection and stay below [nextId]. *)
Definition well_formed (db : DB) : Prop :=
  ids_increasing (mcqs db) ∧ Forall (λ i, 1 ≤ i) (ids (mcqs db))
  ∧ next_id_fresh db ∧ 1 ≤ nextId db.

(** The counter can take [n] more increments without leaving the range
    in which [++] is exact. *)
Definition counter_in_range (db : DB) (n : nat) : Prop :=
  - MAX_SAFE ≤ nextId db ∧ nextId db + Z.of_nat n ≤ MAX_SAFE.

(** A document that [loadDB] reads back unchanged after [saveDB]: a zero
    [nextId] is recomputed on load, so it must already be the recomputed
    value. *)
Definition canonical (db : DB) : Prop :=
  nextId db = 0 →
  match ids (mcqs db) with
  | [] => False
  | i :: rest => js_add (Math_max i rest) 1 = 0
  end.

(** The pending count of a file, as [countPendingMCQs] computes it. *)
Definition count_pending (f : File) : nat :=
  length (filter pending (mcqs (load_doc f))).

(** The paused flag agrees with the handle, and the handle with the
    intervals that are live in the event loop. *)
Definition sched_inv (w : World) : Prop :=
  (schedulerPaused w = true ↔ schedulerHandle w = None)
  ∧ timers w = option_list (schedulerHandle w).

(** The record invariants of the data model, as a test on the arguments of
    an append. *)
Definition record_invariants (question : string) (options : list string)
    (correctIndex : JsNumber) : bool :=
  let n := Z.of_nat (length options) in
  (2 <=? n) && (n <=? 10)
  && match correctIndex with
     | JsInt z => (0 <=? z) && (z <? n)
     | JsNonInt => false
     end
  && negb (falsy question).

(** How many times [markMCQPosted] was called. *)
Definition is_mark_posted (c : Call) : bool :=
  match c with CallMarkPosted _ _ => true | _ => false end.

Definition mark_posted_calls (w : World) : nat :=
  length (filter (λ c, is_mark_posted c = true) (calls w)).

(** Two worlds with the same scheduler variables, timers and launched
    attempts. *)
Definition same_scheduler (w w' : World) : Prop :=
  schedulerHandle w' = schedulerHandle w
  ∧ schedulerPaused w' = schedulerPaused w
  ∧ timers w' = timers w
  ∧ spawned w' = spawned w.

(** ** Sequences of store operations *)




(** The records that [sendPoll] was called with, oldest first. *)
Definition sent_records (w : World) : list MCQ :=
  omap (λ c, match c with CallSendPoll m => Some m | _ => None end) (calls w).

(** Two records that differ at most in what [markMCQPosted] writes. *)
Definition same_content (m m' : MCQ) : Prop :=
  id m' = id m ∧ question m' = question m ∧ options m' = options m
  ∧ correct_index m' = correct_index m ∧ uploaded_by m' = uploaded_by m
  ∧ uploaded_at m' = uploaded_at m.

(** Every record of [l] is still in [l'], at the same position and with
    the same content, and is still posted if it was. *)
Definition keeps_records (l l' : list MCQ) : Prop :=
  ∀ i m, l !! i = Some m →
    ∃ m', l' !! i = Some m' ∧ same_content m m'
          ∧ (posted_at m ≠ None → posted_at m' ≠ None).

(** The scheduler is not paused while a record is pending. *)
Definition paused_means_empty (w : World) : Prop :=
  schedulerPaused w = true → count_pending (db_file w) = 0%nat.

(** Documents of the older variants whose ids are below a positive
    [nextId]. *)
Definition legacy_fresh (db : Legacy.DB) : Prop :=
  1 ≤ Legacy.nextId db
  ∧ Forall (λ q, Legacy.id q < Legacy.nextId db) (Legacy.mcqs db).

(** In the older variants: at most one interval is live, it is the one in
    [schedulerTimer], and the scheduler is not flagged as running without
    one. *)
Definition legacy_timer_inv (w : Legacy.World) : Prop :=
  Legacy.timers w = option_list (Legacy.schedulerTimer w)
  ∧ (Legacy.schedulerPaused w = false → Legacy.schedulerTimer w ≠ None).

(** Sequences of store operations of the older variants; the result lists
    the ids handed out by the appends, in call order. *)
Inductive LegacyOp :=
  | LegacyAdd (question : string) (options : list string)
              (correctIndex : JsNumber) (uploader : Z)
  | LegacyRemove (mcq_id : Z).

Fixpoint legacy_run_store (ops : list LegacyOp) (w : Legacy.World)
    : list Z * Legacy.World :=
  match ops with
  | [] => ([], w)
  | LegacyAdd q o c u :: ops =>
      match Legacy.addMCQ q o c u w with
      | (Ok entry, w') =>
          let '(given, w'') := legacy_run_store ops w' in
          (Legacy.id entry :: given, w'')
      | (Throw _, w') => ([], w')
      end
  | LegacyRemove k :: ops =>
      legacy_run_store ops (exec (Legacy.removeMCQ k) w)
  end.

(** ** Sample data *)

Definition mcq_A : MCQ :=
  mkMCQ 1 "2+2=?" ["3"; "4"; "5"] (JsInt 1) (Some 7) 100 None None.
Definition mcq_B : MCQ :=
  mkMCQ 2 "3+3=?" ["5"; "6"] (JsInt 1) (Some 7) 110 None None.

(** A file holding A and B, both pending. *)
Definition file_AB : File :=
  store_doc {| nextId := 3; mcqs := [mcq_A; mcq_B] |}.

(** A response of [sendPoll] with a poll id, and one without. *)
Definition res_with_id : option Message :=
  Some {| poll := Some {| poll_id := Some "poll-1" |} |}.
Definition res_without_id : option Message :=
  Some {| poll := None |}.

(** * Lemmas *)

(** ** Sums in the safe range *)

Lemma js_add_exact a b :
  - MAX_SAFE ≤ a + b ≤ MAX_SAFE → js_add a b = a + b.
Proof.
  intros Hab. unfold js_add, round_double. cbn zeta.
  destruct (Z.leb_spec (Z.abs (a + b)) MAX_SAFE); [reflexivity | lia].
Qed.

Lemma js_add_succ n :
  - MAX_SAFE ≤ n → n < MAX_SAFE → js_add n 1 = n + 1.
Proof. intros. apply js_add_exact. lia. Qed.

(** ** The operations, unfolded *)

Lemma addMCQ_eq question options correctIndex uploadedBy now w :
  addMCQ question options correctIndex uploadedBy now w =
  let db := load_doc (db_file w) in
  let entry := mkMCQ (nextId db) question options correctIndex
                     (or_null uploadedBy) now None None in
  (Ok entry,
   set_file (store_doc {| nextId := js_add (nextId db) 1;
                          mcqs := mcqs db ++ [entry] |}) w).
Proof. reflexivity. Qed.

Lemma getNextUnpostedMCQ_eq w :
  getNextUnpostedMCQ w =
  (Ok (snd <$> list_find pending (mcqs (load_doc (db_file w)))), w).
Proof. reflexivity. Qed.

Lemma countPendingMCQs_eq w :
  countPendingMCQs w = (Ok (count_pending (db_file w)), w).
Proof. reflexivity. Qed.

Lemma markMCQPosted_found mcq_id pollId now w idx m :
  list_find (λ m, id m = mcq_id) (mcqs (load_doc (db_file w))) = Some (idx, m) →
  markMCQPosted mcq_id pollId now w =
  (Ok tt,
   set_file (store_doc {| nextId := nextId (load_doc (db_file w));
                          mcqs := <[idx := stamp now pollId m]>
                                    (mcqs (load_doc (db_file w))) |})
            (log_call (CallMarkPosted mcq_id pollId) w)).
Proof.
  intros Hfind. unfold markMCQPosted, mbind, StateExn_bind, modify, loadDB, gets.
  cbn. rewrite Hfind. reflexivity.
Qed.

Lemma markMCQPosted_missing mcq_id pollId now w :
  list_find (λ m, id m = mcq_id) (mcqs (load_doc (db_file w))) = None →
  markMCQPosted mcq_id pollId now w =
  (Ok tt, log_call (CallMarkPosted mcq_id pollId) w).
Proof.
  intros Hfind. unfold markMCQPosted, mbind, StateExn_bind, modify, loadDB, gets.
  cbn. rewrite Hfind. reflexivity.
Qed.

Lemma markMCQPosted_ok mcq_id pollId now w :
  ∃ w', markMCQPosted mcq_id pollId now w = (Ok tt, w').
Proof.
  destruct (list_find (λ m, id m = mcq_id) (mcqs (load_doc (db_file w))))
    as [[idx m]|] eqn:Hfind.
  - rewrite (markMCQPosted_found _ _ _ _ _ _ Hfind). eauto.
  - rewrite (markMCQPosted_missing _ _ _ _ Hfind). eauto.
Qed.

(** ** Loading what was saved *)

Lemma mcqs_load_store db : mcqs (load_doc (store_doc db)) = mcqs db.
Proof. reflexivity. Qed.

Lemma Math_max_ge x xs : Forall (λ i, i ≤ Math_max x xs) (x :: xs).
Proof.
  unfold Math_max. induction xs as [|y ys IH]; cbn.
  - constructor; [lia | constructor].
  - inversion IH as [|? ? Hx Hys]; subst.
    constructor; [lia|]. constructor; [lia|].
    eapply Forall_impl; [exact Hys|]. cbn. intros; lia.
Qed.

Lemma Math_max_elem x xs : Math_max x xs ∈ x :: xs.
Proof.
  unfold Math_max. induction xs as [|y ys IH]; cbn.
  - left.
  - destruct (Z.max_spec y (foldr Z.max x ys)) as [[_ ->]|[_ ->]].
    + apply elem_of_cons in IH as [->|IH]; [left | right; right; exact IH].
    + right; left.
Qed.

Lemma load_doc_canonical f : canonical (load_doc f).
Proof.
  destruct f as [[n l]|]; unfold canonical; cbn; [|discriminate].
  destruct n as [n|]; cbn.
  - unfold falsy, Z_falsy. destruct (Z.eqb_spec n 0); cbn.
    + destruct (id <$> default [] l); [lia | trivial].
    + congruence.
  - destruct (id <$> default [] l); [lia | trivial].
Qed.

Lemma load_store_canonical db : canonical db → load_doc (store_doc db) = db.
Proof.
  destruct db as [n l]. unfold canonical; cbn. intros Hc.
  unfold falsy, Z_falsy. destruct (Z.eqb_spec n 0) as [->|Hn]; cbn.
  - specialize (Hc eq_refl). unfold ids in *.
    destruct (id <$> l); [destruct Hc|]. by rewrite Hc.
  - reflexivity.
Qed.

(** ** One delivery attempt, by cases *)

Lemma postNextMCQIfAny_empty net now w :
  list_find pending (mcqs (load_doc (db_file w))) = None →
  postNextMCQIfAny net now w = pauseScheduler w.
Proof.
  intros Hnone. unfold postNextMCQIfAny, mbind at 1, StateExn_bind at 1.
  rewrite getNextUnpostedMCQ_eq, Hnone. reflexivity.
Qed.

Lemma postNextMCQIfAny_rejected err now w i m :
  list_find pending (mcqs (load_doc (db_file w))) = Some (i, m) →
  postNextMCQIfAny (Rejected err) now w =
  (Ok tt, log_call (CallSendPoll m) w).
Proof.
  intros Hsome. unfold postNextMCQIfAny, mbind at 1, StateExn_bind at 1.
  rewrite getNextUnpostedMCQ_eq, Hsome. reflexivity.
Qed.

Lemma postNextMCQIfAny_resolved res now w i m :
  list_find pending (mcqs (load_doc (db_file w))) = Some (i, m) →
  postNextMCQIfAny (Resolved res) now w =
  markMCQPosted (id m) (or_null (res_poll_id res)) now
                (log_call (CallSendPoll m) w).
Proof.
  intros Hsome. unfold postNextMCQIfAny, mbind at 1, StateExn_bind at 1.
  rewrite getNextUnpostedMCQ_eq, Hsome. cbn.
  unfold try_catch, sendPoll, mbind, StateExn_bind, modify, mret, StateExn_ret.
  cbn.
  destruct (markMCQPosted_ok (id m) (or_null (res_poll_id res)) now
              (log_call (CallSendPoll m) w)) as [w' ->].
  reflexivity.
Qed.

(** ** Selecting the next pending record *)

Lemma first_pending_split (l : list MCQ) i m :
  list_find pending l = Some (i, m) →
  ∃ l1 l2, l = l1 ++ m :: l2 ∧ length l1 = i
           ∧ Forall (λ x, ¬ pending x) l1 ∧ pending m.
Proof.
  intros (Hi & Hm & Hbefore)%list_find_Some.
  exists (take i l), (drop (S i) l). split_and!.
  - by rewrite take_drop_middle.
  - apply length_take_le. apply lookup_lt_Some in Hi. lia.
  - apply Forall_lookup. intros j x Hj.
    apply lookup_take_Some in Hj as [Hj Hlt]. by eapply Hbefore.
  - exact Hm.
Qed.

Lemma ids_increasing_inj (l : list MCQ) x y :
  ids_increasing l → x ∈ l → y ∈ l → id x = id y → x = y.
Proof.
  unfold ids_increasing, ids. induction l as [|a l IH]; cbn.
  - intros _ Hx. by apply elem_of_nil in Hx.
  - intros Hs Hx Hy Heq. inversion Hs as [|? ? Hs' Hall]; subst.
    rewrite Forall_fmap, Forall_forall in Hall. cbn in Hall.
    apply elem_of_cons in Hx as [->|Hx]; apply elem_of_cons in Hy as [->|Hy].
    + reflexivity.
    + specialize (Hall _ Hy). lia.
    + specialize (Hall _ Hx). lia.
    + by apply IH.
Qed.

Lemma first_pending_least (l : list MCQ) i m m' :
  ids_increasing l →
  list_find pending l = Some (i, m) →
  m' ∈ l → pending m' → id m ≤ id m'.
Proof.
  intros Hs Hfind Hin Hp.
  destruct (first_pending_split _ _ _ Hfind) as (l1 & l2 & -> & _ & Hl1 & _).
  unfold ids_increasing, ids in Hs. rewrite fmap_app in Hs. cbn in Hs.
  apply StronglySorted_app_1_r in Hs.
  inversion Hs as [|? ? _ Hall]; subst.
  rewrite Forall_fmap, Forall_forall in Hall. cbn in Hall.
  apply elem_of_app in Hin as [Hin|Hin].
  - rewrite Forall_forall in Hl1. by destruct (Hl1 _ Hin).
  - apply elem_of_cons in Hin as [->|Hin]; [lia|].
    specialize (Hall _ Hin). lia.
Qed.

(** ** What the two mutations leave in the file *)

Lemma ids_insert_stamp (l : list MCQ) idx m now pollId :
  l !! idx = Some m → ids (<[idx := stamp now pollId m]> l) = ids l.
Proof.
  intros Hm. unfold ids. rewrite list_fmap_insert. cbn.
  apply list_insert_id. by rewrite list_lookup_fmap, Hm.
Qed.

Lemma Math_max_snoc (l : list Z) n i rest :
  Forall (λ j, j < n) l → l ++ [n] = i :: rest → Math_max i rest = n.
Proof.
  intros Hlt Heq.
  pose proof (Math_max_elem i rest) as Hin.
  pose proof (Math_max_ge i rest) as Hge.
  rewrite <- Heq in Hin, Hge.
  rewrite Forall_app, Forall_singleton in Hge. destruct Hge as [_ Hge].
  apply elem_of_app in Hin as [Hin|Hin].
  - rewrite Forall_forall in Hlt. specialize (Hlt _ Hin). lia.
  - by apply list_elem_of_singleton in Hin.
Qed.

Lemma canonical_add db e :
  next_id_fresh db → id e = nextId db →
  canonical {| nextId := nextId db + 1; mcqs := mcqs db ++ [e] |}.
Proof.
  intros Hfresh He. unfold canonical, ids; cbn. intros Hzero.
  rewrite fmap_app. cbn. rewrite He.
  destruct ((id <$> mcqs db) ++ [nextId db]) as [|i rest] eqn:Heq.
  - by apply app_nil in Heq as [_ ?].
  - rewrite (Math_max_snoc _ _ _ _ Hfresh Heq).
    replace (nextId db) with (-1) by lia. reflexivity.
Qed.

Lemma canonical_same_ids db l :
  canonical db → ids l = ids (mcqs db) →
  canonical {| nextId := nextId db; mcqs := l |}.
Proof. unfold canonical, ids; cbn. intros Hc ->. exact Hc. Qed.

Lemma load_after_add question options correctIndex uploadedBy now w :
  next_id_fresh (load_doc (db_file w)) →
  counter_in_range (load_doc (db_file w)) 1 →
  load_doc (db_file (exec (addMCQ question options correctIndex uploadedBy now) w)) =
  let db := load_doc (db_file w) in
  {| nextId := nextId db + 1;
     mcqs := mcqs db ++ [mkMCQ (nextId db) question options correctIndex
                               (or_null uploadedBy) now None None] |}.
Proof.
  intros Hfresh [Hlo Hhi]. unfold exec. rewrite addMCQ_eq. cbn.
  rewrite js_add_succ by lia.
  apply (load_store_canonical (mkDB _ _)). by apply canonical_add.
Qed.

Lemma load_after_mark mcq_id pollId now w idx m :
  list_find (λ m, id m = mcq_id) (mcqs (load_doc (db_file w))) = Some (idx, m) →
  load_doc (db_file (exec (markMCQPosted mcq_id pollId now) w)) =
  {| nextId := nextId (load_doc (db_file w));
     mcqs := <[idx := stamp now pollId m]> (mcqs (load_doc (db_file w))) |}.
Proof.
  intros Hfind. unfold exec. rewrite (markMCQPosted_found _ _ _ _ _ _ Hfind).
  cbn. apply (load_store_canonical (mkDB _ _)).
  apply canonical_same_ids; [apply load_doc_canonical|].
  apply ids_insert_stamp. by apply list_find_Some in Hfind as [? _].
Qed.

Lemma file_after_missing_mark mcq_id pollId now w :
  list_find (λ m, id m = mcq_id) (mcqs (load_doc (db_file w))) = None →
  db_file (exec (markMCQPosted mcq_id pollId now) w) = db_file w.
Proof.
  intros Hfind. unfold exec. by rewrite (markMCQPosted_missing _ _ _ _ Hfind).
Qed.

(** ** Well-formed documents stay well-formed *)

Lemma well_formed_absent : well_formed (load_doc None).
Proof.
  unfold well_formed, ids_increasing, next_id_fresh; cbn.
  split_and!; [constructor | constructor | constructor | lia].
Qed.

Lemma well_formed_add db e :
  well_formed db → id e = nextId db →
  well_formed {| nextId := nextId db + 1; mcqs := mcqs db ++ [e] |}.
Proof.
  unfold well_formed, ids_increasing, next_id_fresh, ids; cbn.
  intros (Hs & Hpos & Hfresh & Hn) He. rewrite !fmap_app; cbn. split_and!.
  - apply StronglySorted_app_2; [| exact Hs | repeat constructor].
    intros x1 x2 Hx1 ->%list_elem_of_singleton.
    rewrite Forall_forall in Hfresh. specialize (Hfresh _ Hx1). lia.
  - apply Forall_app; split; [exact Hpos|]. apply Forall_singleton. lia.
  - apply Forall_app; split.
    + eapply Forall_impl; [exact Hfresh|]. cbn. intros; lia.
    + apply Forall_singleton. lia.
  - lia.
Qed.

Lemma well_formed_same_ids db l :
  well_formed db → ids l = ids (mcqs db) →
  well_formed {| nextId := nextId db; mcqs := l |}.
Proof.
  unfold well_formed, ids_increasing, next_id_fresh, ids; cbn.
  by intros H ->.
Qed.

Lemma well_formed_in_range db n :
  well_formed db → nextId db + Z.of_nat n ≤ MAX_SAFE → counter_in_range db n.
Proof.
  intros (_ & _ & _ & Hpos) Hhi. split; [|exact Hhi].
  unfold MAX_SAFE. lia.
Qed.

Lemma well_formed_addMCQ question options correctIndex uploadedBy now w :
  well_formed (load_doc (db_file w)) →
  nextId (load_doc (db_file w)) < MAX_SAFE →
  let db' := load_doc (db_file
    (exec (addMCQ question options correctIndex uploadedBy now) w)) in
  well_formed db' ∧ nextId db' = nextId (load_doc (db_file w)) + 1.
Proof.
  intros Hwf Hhi db'. subst db'.
  rewrite load_after_add;
    [| apply Hwf | apply well_formed_in_range; [exact Hwf | lia]].
  split; [by apply well_formed_add | reflexivity].
Qed.

Lemma well_formed_markMCQPosted mcq_id pollId now w :
  well_formed (load_doc (db_file w)) →
  let db' := load_doc (db_file (exec (markMCQPosted mcq_id pollId now) w)) in
  well_formed db' ∧ nextId db' = nextId (load_doc (db_file w)).
Proof.
  intros Hwf db'. subst db'.
  destruct (list_find (λ m, id m = mcq_id) (mcqs (load_doc (db_file w))))
    as [[idx m]|] eqn:Hfind.
  - rewrite (load_after_mark _ _ _ _ _ _ Hfind). split; [|reflexivity].
    apply well_formed_same_ids; [exact Hwf|].
    apply ids_insert_stamp. by apply list_find_Some in Hfind as [? _].
  - by rewrite file_after_missing_mark.
Qed.

(** ** The scheduler's own operations *)

Lemma pauseScheduler_eq w :
  pauseScheduler w =
  (Ok tt,
   set_paused true (set_handle None
     match schedulerHandle w with
     | Some h => set_timers (filter (λ t, t ≠ h) (timers w)) (timer_seq w) w
     | None => w
     end)).
Proof.
  unfold pauseScheduler, mbind, StateExn_bind, gets, clearInterval, modify.
  cbn. by destruct (schedulerHandle w).
Qed.

Lemma startScheduler_eq w :
  startScheduler w =
  (Ok tt,
   match schedulerHandle w with
   | Some _ => set_paused false w
   | None =>
       set_handle (Some (timer_seq w))
         (set_timers (timers w ++ [timer_seq w]) (S (timer_seq w))
            (set_spawned (S (spawned w)) (set_paused false w)))
   end).
Proof.
  unfold startScheduler, mbind, StateExn_bind, gets. cbn.
  by destruct (schedulerHandle w).
Qed.

Lemma sched_inv_boot f : sched_inv (boot f).
Proof. by split. Qed.

Lemma sched_inv_pause w : sched_inv w → sched_inv (exec pauseScheduler w).
Proof.
  intros [Hp Ht]. unfold exec. rewrite pauseScheduler_eq.
  split; [done|]. cbn. destruct (schedulerHandle w) as [h|]; cbn in *.
  - rewrite Ht. cbn. by rewrite decide_False by (intros Hne; by apply Hne).
  - exact Ht.
Qed.

Lemma sched_inv_start w : sched_inv w → sched_inv (exec startScheduler w).
Proof.
  intros [Hp Ht]. unfold exec. rewrite startScheduler_eq. cbn.
  destruct (schedulerHandle w) as [h|] eqn:Hh; split; cbn.
  - by rewrite Hh.
  - by rewrite Hh.
  - done.
  - by rewrite Ht.
Qed.

(** The store operations touch neither the scheduler nor the timers. *)
Lemma same_scheduler_inv w w' : same_scheduler w w' → sched_inv w → sched_inv w'.
Proof. unfold sched_inv. by intros (-> & -> & -> & _). Qed.

Lemma addMCQ_same_scheduler question options correctIndex uploadedBy now w :
  same_scheduler w (exec (addMCQ question options correctIndex uploadedBy now) w).
Proof. by unfold exec; rewrite addMCQ_eq. Qed.

Lemma markMCQPosted_same_scheduler mcq_id pollId now w :
  same_scheduler w (exec (markMCQPosted mcq_id pollId now) w).
Proof.
  unfold exec.
  destruct (list_find (λ m, id m = mcq_id) (mcqs (load_doc (db_file w))))
    as [[idx m]|] eqn:Hfind.
  - by rewrite (markMCQPosted_found _ _ _ _ _ _ Hfind).
  - by rewrite (markMCQPosted_missing _ _ _ _ Hfind).
Qed.

Lemma sched_inv_postNext net now w :
  sched_inv w → sched_inv (exec (postNextMCQIfAny net now) w).
Proof.
  intros Hinv.
  destruct (list_find pending (mcqs (load_doc (db_file w))))
    as [[i m]|] eqn:Hfind.
  - destruct net as [err|res]; unfold exec.
    + by rewrite (postNextMCQIfAny_rejected _ _ _ _ _ Hfind).
    + rewrite (postNextMCQIfAny_resolved _ _ _ _ _ Hfind).
      eapply same_scheduler_inv; [apply markMCQPosted_same_scheduler|].
      exact Hinv.
  - unfold exec. rewrite (postNextMCQIfAny_empty _ _ _ Hfind).
    by apply sched_inv_pause.
Qed.

(** ** The upload handler *)

Lemma reply_eq ack r w :
  reply ack r w =
  (match ack with Delivered => Ok tt | Undelivered err => Throw err end,
   log_call (CallReply r) w).
Proof. by destruct ack. Qed.

Lemma enqueue_eq question options correctIndex from now ack ack' w :
  enqueue question options correctIndex from now ack ack' w =
  let w1 := exec (addMCQ question options correctIndex (Some from) now) w in
  let w2 := log_call (CallReply (ReplyQueued (nextId (load_doc (db_file w)))))
                     w1 in
  match ack with
  | Undelivered err => (Throw err, w2)
  | Delivered =>
      if schedulerPaused w
      then (match ack' with Delivered => Ok tt | Undelivered err => Throw err end,
            log_call (CallReply ReplyRestarted) (exec startScheduler w2))
      else (Ok tt, w2)
  end.
Proof.
  unfold enqueue, mbind at 1, StateExn_bind at 1. unfold exec.
  rewrite addMCQ_eq. cbn zeta. cbn [snd].
  unfold mbind at 1, StateExn_bind at 1. rewrite reply_eq.
  destruct ack as [|err]; [|reflexivity].
  unfold mbind, StateExn_bind, gets. cbn [schedulerPaused log_call set_file].
  destruct (schedulerPaused w); [|reflexivity].
  rewrite !startScheduler_eq, reply_eq. reflexivity.
Qed.

Lemma enqueue_file question options correctIndex from now ack ack' w :
  db_file (exec (enqueue question options correctIndex from now ack ack') w) =
  db_file (exec (addMCQ question options correctIndex (Some from) now) w).
Proof.
  unfold exec at 1. rewrite enqueue_eq. cbn zeta.
  destruct ack as [|err]; [|reflexivity].
  destruct (schedulerPaused w); [|reflexivity].
  cbn [snd]. unfold exec at 1. rewrite startScheduler_eq. cbn.
  by destruct (schedulerHandle (exec _ w)).
Qed.

Lemma sched_inv_enqueue question options correctIndex from now ack ack' w :
  sched_inv w →
  sched_inv (exec (enqueue question options correctIndex from now ack ack') w).
Proof.
  intros Hinv. unfold exec at 1. rewrite enqueue_eq. cbn zeta.
  pose proof (addMCQ_same_scheduler question options correctIndex
                (Some from) now w) as Hsame.
  apply same_scheduler_inv in Hsame; [|exact Hinv].
  set (w1 := exec (addMCQ question options correctIndex (Some from) now) w) in *.
  destruct ack as [|err]; [|exact Hsame].
  destruct (schedulerPaused w); [|exact Hsame].
  cbn [snd]. by apply (sched_inv_start (log_call _ w1)).
Qed.

Lemma validate_None options correctIndex :
  validate options correctIndex = None ↔
  ∃ z, correctIndex = JsInt z
       ∧ 0 ≤ z < Z.of_nat (length options)
       ∧ 2 ≤ Z.of_nat (length options) ≤ 10.
Proof.
  unfold validate. destruct correctIndex as [z|]; cbn.
  - destruct (Z.ltb_spec z 0); cbn; [split; [done | intros (? & [= <-] & ?); lia]|].
    destruct (Z.leb_spec (Z.of_nat (length options)) z); cbn;
      [split; [done | intros (? & [= <-] & ?); lia]|].
    destruct (Z.ltb_spec (Z.of_nat (length options)) 2); cbn;
      [split; [done | intros (? & [= <-] & ?); lia]|].
    destruct (Z.ltb_spec 10 (Z.of_nat (length options))); cbn;
      [split; [done | intros (? & [= <-] & ?); lia]|].
    split; [intros _; exists z; split_and!; (done || lia) | done].
  - split; [done | by intros (? & ? & _)].
Qed.

Section UploadFacts.
Variable Number : string → JsNumber.

(** Either the handler answers with one reply and stops, or its checks
    passed and it runs [enqueue] on checked arguments. *)
Lemma upload_outcome private pieces from now ack ack' w :
  (∃ r, upload Number private pieces from now ack ack' w = reply ack r w)
  ∨ (∃ question options correctIndex,
       validate options correctIndex = None
       ∧ question ≠ ""
       ∧ upload Number private pieces from now ack ack' w
         = enqueue question options correctIndex from now ack ack' w).
Proof.
  unfold upload. destruct private; cbn; [|left; by eexists].
  destruct (decide (pieces = [""])); [left; by eexists|].
  destruct (decide (length (filter (λ p, p ≠ "") pieces) < 3)%nat)
    as [|Hlen]; [left; by eexists|].
  cbn.
  destruct (validate _ _) as [r|] eqn:Hv; [left; by eexists|].
  right. do 3 eexists. split; [exact Hv|]. split; [|reflexivity].
  destruct (filter (λ p, p ≠ "") pieces) as [|q rest] eqn:Hparts;
    [cbn in Hlen; lia|].
  assert (q ∈ filter (λ p, p ≠ "") pieces) as Hq by (rewrite Hparts; left).
  apply list_elem_of_filter in Hq as [Hq _].
  destruct rest as [|q' rest]; [cbn in Hlen; lia|]. exact Hq.
Qed.
End UploadFacts.

(** ** Delivery attempts return, and the invariants hold along a run *)


Lemma well_formed_postNext net now w :
  well_formed (load_doc (db_file w)) →
  let db' := load_doc (db_file (exec (postNextMCQIfAny net now) w)) in
  well_formed db' ∧ nextId db' = nextId (load_doc (db_file w)).
Proof.
  intros Hwf db'. subst db'.
  destruct (list_find pending (mcqs (load_doc (db_file w))))
    as [[i m]|] eqn:Hfind; unfold exec.
  - destruct net as [err|res].
    + by rewrite (postNextMCQIfAny_rejected _ _ _ _ _ Hfind).
    + rewrite (postNextMCQIfAny_resolved _ _ _ _ _ Hfind).
      by apply (well_formed_markMCQPosted _ _ _ (log_call _ w)).
  - rewrite (postNextMCQIfAny_empty _ _ _ Hfind), pauseScheduler_eq. cbn.
    by destruct (schedulerHandle w).
Qed.

Section RunFacts.
Variable Number : string → JsNumber.

Lemma handle_sched_inv e w :
  sched_inv w → sched_inv (exec (handle Number e) w).
Proof.
  intros Hinv.
  destruct e as [private pieces from now ack ack' | h net now | net now];
    unfold exec; cbn [handle].
  - destruct (upload_outcome Number private pieces from now ack ack' w)
      as [(r & ->) | (q & o & c & _ & _ & ->)].
    + by rewrite reply_eq.
    + by apply sched_inv_enqueue.
  - unfold mbind, StateExn_bind, gets.
    destruct (decide (h ∈ timers w)); [|exact Hinv].
    by apply sched_inv_postNext.
  - unfold mbind, StateExn_bind, gets, modify.
    destruct (spawned w) as [|n]; [exact Hinv|].
    by apply (sched_inv_postNext net now (set_spawned n w)).
Qed.

(** One event keeps a well-formed document well-formed, and moves the
    counter up by at most one, as long as the counter is below 2^53. *)
Lemma handle_well_formed e w :
  well_formed (load_doc (db_file w)) →
  nextId (load_doc (db_file w)) < MAX_SAFE →
  let db' := load_doc (db_file (exec (handle Number e) w)) in
  well_formed db' ∧ nextId db' ≤ nextId (load_doc (db_file w)) + 1.
Proof.
  intros Hwf Hhi db'. subst db'.
  destruct e as [private pieces from now ack ack' | h net now | net now];
    unfold exec; cbn [handle].
  - destruct (upload_outcome Number private pieces from now ack ack' w)
      as [(r & ->) | (q & o & c & _ & _ & ->)].
    + rewrite reply_eq. cbn. split; [exact Hwf | lia].
    + fold (exec (enqueue q o c from now ack ack') w). rewrite enqueue_file.
      destruct (well_formed_addMCQ q o c (Some from) now w Hwf Hhi)
        as [Hwf' Hn].
      split; [exact Hwf' | lia].
  - unfold mbind, StateExn_bind, gets.
    destruct (decide (h ∈ timers w)); [|cbn; split; [exact Hwf | lia]].
    destruct (well_formed_postNext net now w Hwf) as [Hwf' Hn].
    split; [exact Hwf' | unfold exec in Hn; lia].
  - unfold mbind, StateExn_bind, gets, modify.
    destruct (spawned w) as [|n]; [cbn; split; [exact Hwf | lia]|].
    destruct (well_formed_postNext net now (set_spawned n w) Hwf)
      as [Hwf' Hn].
    split; [exact Hwf' | unfold exec in Hn; cbn in Hn |- *; lia].
Qed.

Lemma run_sched_inv es w : sched_inv w → sched_inv (run Number es w).
Proof.
  revert w. induction es as [|e es IH]; intros w Hinv; cbn; [exact Hinv|].
  by apply IH, handle_sched_inv.
Qed.

(** A run keeps a well-formed document well-formed as long as the counter
    has room for one increment per event below 2^53. *)
Lemma run_well_formed es w :
  well_formed (load_doc (db_file w)) →
  nextId (load_doc (db_file w)) + Z.of_nat (length es) ≤ MAX_SAFE →
  let db' := load_doc (db_file (run Number es w)) in
  well_formed db'
  ∧ nextId db' ≤ nextId (load_doc (db_file w)) + Z.of_nat (length es).
Proof.
  revert w. induction es as [|e es IH]; intros w Hwf Hhi; cbn [run].
  - cbn. split; [exact Hwf | lia].
  - cbn [length] in Hhi.
    destruct (handle_well_formed e w Hwf) as [Hwf1 Hn1]; [lia|].
    destruct (IH _ Hwf1) as [Hwf' Hn']; [lia|].
    split; [exact Hwf'|]. cbn [length]. lia.
Qed.
End RunFacts.

(** ** Start-up *)

Lemma init_eq w :
  init w =
  if decide (0 < count_pending (db_file w))%nat
  then startScheduler w else (Ok tt, w).
Proof.
  unfold init, mbind, StateExn_bind. rewrite countPendingMCQs_eq.
  by destruct (decide _).
Qed.

Lemma sched_inv_started f : sched_inv (started f).
Proof.
  unfold started, exec. rewrite init_eq.
  destruct (decide _); [|by apply sched_inv_boot].
  apply (sched_inv_start (boot f)), sched_inv_boot.
Qed.

Lemma started_file f : db_file (started f) = f.
Proof.
  unfold started, exec. rewrite init_eq.
  destruct (decide _); [|reflexivity]. by rewrite startScheduler_eq.
Qed.

(** Whatever happens after a start on an absent file, the document stays
    well-formed (in particular its ids stay pairwise distinct), for as
    many events as the counter has room below 2^53. *)
Lemma reachable_well_formed Number es :
  1 + Z.of_nat (length es) ≤ MAX_SAFE →
  well_formed (load_doc (db_file (run Number es (started None)))).
Proof.
  intros Hhi. apply run_well_formed; rewrite started_file.
  - apply well_formed_absent.
  - exact Hhi.
Qed.

(** * The claims *)

(** ** Selecting the next pending record *)

Lemma getNextMCQ_eq (w : Legacy.World) :
  Legacy.getNextMCQ w =
  (Ok (head (Legacy.mcqs (Legacy.load_doc (Legacy.db_file w)))), w).
Proof.
  unfold Legacy.getNextMCQ, mbind, StateExn_bind, Legacy.loadDB, gets. cbn.
  by destruct (Legacy.mcqs _).
Qed.

Lemma delivery_attempt_sends net now w i m :
  list_find pending (mcqs (load_doc (db_file w))) = Some (i, m) →
  ∃ rest, calls (exec (postNextMCQIfAny net now) w)
          = calls w ++ CallSendPoll m :: rest.
Proof.
  intros Hfind. unfold exec. destruct net as [err|res].
  - rewrite (postNextMCQIfAny_rejected _ _ _ _ _ Hfind). by exists [].
  - rewrite (postNextMCQIfAny_resolved _ _ _ _ _ Hfind).
    exists [CallMarkPosted (id m) (or_null (res_poll_id res))].
    destruct (list_find (λ x, id x = id m)
                (mcqs (load_doc (db_file (log_call (CallSendPoll m) w)))))
      as [[idx x]|] eqn:Hid.
    + rewrite (markMCQPosted_found _ _ _ _ _ _ Hid). cbn.
      by rewrite <- app_assoc.
    + rewrite (markMCQPosted_missing _ _ _ _ Hid). cbn.
      by rewrite <- app_assoc.
Qed.

(** C1. [getNextUnpostedMCQ] returns without changing anything.  Its result
    is none exactly when no record is pending; otherwise it is the pending
    record that comes first in insertion order.  When ids grow along the
    collection, that record has the smallest id of all pending records; and
    in a well-formed document where records A (id 1) and B (id 2) are both
    pending it is A, which is also the record a delivery attempt sends.
    In the older variants, where every stored record is undelivered,
    [getNextMCQ] returns the first stored record and saves nothing. *)
Theorem next_pending_is_oldest (w : World) :
  let l := mcqs (load_doc (db_file w)) in
  ∃ r,
    getNextUnpostedMCQ w = (Ok r, w)
    ∧ (r = None ↔ Forall (λ m, ¬ pending m) l)
    ∧ (∀ m, r = Some m →
         ∃ l1 l2, l = l1 ++ m :: l2
                  ∧ Forall (λ x, ¬ pending x) l1 ∧ pending m)
    ∧ (ids_increasing l →
       ∀ m, r = Some m → ∀ m', m' ∈ l → pending m' → id m ≤ id m')
    ∧ (well_formed (load_doc (db_file w)) →
       ∀ A B, A ∈ l → B ∈ l → id A = 1 → id B = 2 →
              pending A → pending B →
              r = Some A
              ∧ ∀ net now, ∃ rest,
                  calls (exec (postNextMCQIfAny net now) w)
                  = calls w ++ CallSendPoll A :: rest)
    ∧ (∀ w0 : Legacy.World,
         Legacy.getNextMCQ w0 =
         (Ok (head (Legacy.mcqs (Legacy.load_doc (Legacy.db_file w0)))), w0)).
Proof.
  intros l. exists (snd <$> list_find pending l). split_and!.
  - apply getNextUnpostedMCQ_eq.
  - rewrite fmap_None. apply list_find_None.
  - intros m Hr. apply fmap_Some in Hr as ([i m0] & Hfind & ->).
    destruct (first_pending_split _ _ _ Hfind) as (l1 & l2 & ? & _ & ? & ?).
    by exists l1, l2.
  - intros Hs m Hr m' Hin Hp.
    apply fmap_Some in Hr as ([i m0] & Hfind & ->).
    by eapply first_pending_least.
  - intros (Hs & Hpos & _) A B HA _ HidA _ HpA _.
    destruct (list_find pending l) as [[i m]|] eqn:Hfind.
    + assert (m = A) as ->.
      { pose proof (first_pending_least _ _ _ _ Hs Hfind HA HpA) as Hle.
        apply list_find_Some in Hfind as (Hi & _ & _).
        apply list_elem_of_lookup_2 in Hi.
        apply (ids_increasing_inj l); [done..|].
        unfold ids in Hpos. rewrite Forall_fmap, Forall_forall in Hpos.
        specialize (Hpos _ Hi). cbn in Hpos. lia. }
      split; [reflexivity|]. intros net now.
      by eapply delivery_attempt_sends.
    + apply list_find_None in Hfind. rewrite Forall_forall in Hfind.
      by destruct (Hfind _ HA).
  - apply getNextMCQ_eq.
Qed.

Lemma file_AB_well_formed : well_formed (load_doc file_AB).
Proof.
  unfold well_formed, ids_increasing, next_id_fresh; cbn.
  split_and!; [| | | lia]; repeat constructor; lia.
Qed.

Lemma next_pending_is_oldest_witness :
  well_formed (load_doc (db_file (boot file_AB)))
  ∧ getNextUnpostedMCQ (boot file_AB) = (Ok (Some mcq_A), boot file_AB).
Proof.
  split; [exact file_AB_well_formed|].
  destruct (next_pending_is_oldest (boot file_AB))
    as (r & Hr & _ & _ & _ & HAB & _).
  destruct (HAB file_AB_well_formed mcq_A mcq_B) as [-> _];
    [repeat constructor | repeat constructor
    | reflexivity | reflexivity | reflexivity | reflexivity |].
  exact Hr.
Defined.

(** ** Marking a record twice *)

Lemma find_by_id_insert_stamp (l : list MCQ) k idx m now pollId :
  list_find (λ x, id x = k) l = Some (idx, m) →
  list_find (λ x, id x = k) (<[idx := stamp now pollId m]> l)
  = Some (idx, stamp now pollId m).
Proof.
  intros (Hi & Hk & Hbefore)%list_find_Some. apply list_find_Some. split_and!.
  - apply list_lookup_insert_eq. by eapply lookup_lt_Some.
  - exact Hk.
  - intros j y Hj Hlt. rewrite list_lookup_insert_ne in Hj by lia.
    by eapply Hbefore.
Qed.

Lemma stamp_eq_iff t1 t2 ref1 ref2 m :
  stamp t2 ref2 m = stamp t1 ref1 m ↔ t2 = t1 ∧ or_null ref2 = or_null ref1.
Proof.
  unfold stamp. split.
  - by intros [= -> ->].
  - by intros [-> ->].
Qed.

(** C2, as amended.  On a record that is present, the second
    [markMCQPosted] overwrites what the first one wrote: afterwards the
    record carries the second call's time and the second call's reference
    (null when that reference is absent or empty), every other record and
    field is as before, and [posted_at] is non-null after either call.  The
    record equals what the first call left exactly when the second call
    came with the same clock reading and the same reference. *)
Theorem mark_posted_last_call_wins w mcq_id ref1 ref2 t1 t2 idx m :
  list_find (λ x, id x = mcq_id) (mcqs (load_doc (db_file w))) = Some (idx, m) →
  let l := mcqs (load_doc (db_file w)) in
  let w1 := exec (markMCQPosted mcq_id ref1 t1) w in
  let w2 := exec (markMCQPosted mcq_id ref2 t2) w1 in
  mcqs (load_doc (db_file w1)) = <[idx := stamp t1 ref1 m]> l
  ∧ mcqs (load_doc (db_file w2)) = <[idx := stamp t2 ref2 m]> l
  ∧ posted_at (stamp t2 ref2 m) = Some t2
  ∧ telegram_poll_id (stamp t2 ref2 m) = or_null ref2
  ∧ (mcqs (load_doc (db_file w2)) = mcqs (load_doc (db_file w1))
     ↔ t2 = t1 ∧ or_null ref2 = or_null ref1).
Proof.
  intros Hfind l w1 w2.
  assert (mcqs (load_doc (db_file w1)) = <[idx := stamp t1 ref1 m]> l) as H1.
  { subst w1. by rewrite (load_after_mark _ _ _ _ _ _ Hfind). }
  assert (mcqs (load_doc (db_file w2)) = <[idx := stamp t2 ref2 m]> l) as H2.
  { subst w2. erewrite load_after_mark; cycle 1.
    - rewrite H1. by apply find_by_id_insert_stamp.
    - cbn. rewrite H1. by rewrite list_insert_insert_eq. }
  refine (conj H1 (conj H2 (conj eq_refl (conj eq_refl _)))).
  rewrite H1, H2, <- stamp_eq_iff.
  assert (idx < length l)%nat as Hlt
    by (apply list_find_Some in Hfind as [Hi _]; by eapply lookup_lt_Some).
  split; [|by intros ->].
  intros Heq. apply (f_equal (λ x, x !! idx)) in Heq.
  rewrite !list_lookup_insert_eq in Heq by done. congruence.
Qed.

Lemma mark_posted_last_call_wins_witness :
  let w := boot file_AB in
  let w2 := exec (markMCQPosted 1 None 200)
                 (exec (markMCQPosted 1 (Some "p1") 100) w) in
  list_find (λ x, id x = 1) (mcqs (load_doc (db_file w))) = Some (0%nat, mcq_A)
  ∧ mcqs (load_doc (db_file w2)) = [stamp 200 None mcq_A; mcq_B].
Proof.
  split; [reflexivity|].
  apply (mark_posted_last_call_wins (boot file_AB) 1 (Some "p1") None 100 200
           0%nat mcq_A).
  reflexivity.
Defined.

(** C2, as stated, fails: on the file holding A and B, a second call for
    A's id at a later clock reading and without a reference replaces A's
    [posted_at] and erases its [telegram_poll_id]. *)
Lemma mark_posted_twice_not_idempotent :
  let w1 := exec (markMCQPosted 1 (Some "p1") 100) (boot file_AB) in
  let w2 := exec (markMCQPosted 1 None 200) w1 in
  ∃ m1 m2,
    mcqs (load_doc (db_file w1)) !! 0%nat = Some m1
    ∧ mcqs (load_doc (db_file w2)) !! 0%nat = Some m2
    ∧ id m1 = 1 ∧ id m2 = 1
    ∧ posted_at m1 = Some 100 ∧ telegram_poll_id m1 = Some "p1"
    ∧ posted_at m2 ≠ posted_at m1
    ∧ telegram_poll_id m2 ≠ telegram_poll_id m1
    ∧ telegram_poll_id m2 = None.
Proof.
  exists (stamp 100 (Some "p1") mcq_A), (stamp 200 None mcq_A).
  split_and!; try reflexivity; discriminate.
Qed.

(** ** A delivery attempt on a document with unique ids *)

Lemma ids_increasing_NoDup (l : list MCQ) : ids_increasing l → NoDup (ids l).
Proof.
  unfold ids_increasing. generalize (ids l). intros zs.
  induction 1 as [|z zs _ IH Hall]; constructor; [|exact IH].
  intros Hin. rewrite Forall_forall in Hall. specialize (Hall _ Hin). lia.
Qed.

Lemma find_by_id_unique (l : list MCQ) i m :
  NoDup (ids l) → l !! i = Some m →
  list_find (λ x, id x = id m) l = Some (i, m).
Proof.
  intros Hnd Hi. apply list_find_Some. split_and!; [done..|].
  intros j y Hj Hlt Heq.
  assert (ids l !! j = Some (id m)) as Hj'
    by (unfold ids; by rewrite list_lookup_fmap, Hj, <- Heq).
  assert (ids l !! i = Some (id m)) as Hi'
    by (unfold ids; by rewrite list_lookup_fmap, Hi).
  pose proof (NoDup_lookup _ _ _ _ Hnd Hj' Hi'). lia.
Qed.

Lemma count_pending_stamp (l : list MCQ) i m now pollId :
  l !! i = Some m → pending m →
  S (length (filter pending (<[i := stamp now pollId m]> l)))
  = length (filter pending l).
Proof.
  intros Hi Hp.
  rewrite <- (take_drop_middle l i m Hi) at 2.
  rewrite insert_take_drop by (by eapply lookup_lt_Some).
  rewrite !filter_app, !filter_cons, !length_app.
  rewrite decide_False by (unfold pending; cbn; discriminate).
  rewrite decide_True by exact Hp.
  cbn. lia.
Qed.

Lemma delivery_success w i m res now :
  let l := mcqs (load_doc (db_file w)) in
  NoDup (ids l) →
  list_find pending l = Some (i, m) →
  mcqs (load_doc (db_file (exec (postNextMCQIfAny (Resolved res) now) w)))
  = <[i := stamp now (or_null (res_poll_id res)) m]> l.
Proof.
  intros l Hnd Hfind. unfold exec.
  rewrite (postNextMCQIfAny_resolved _ _ _ _ _ Hfind).
  pose proof Hfind as (Hi & _ & _)%list_find_Some.
  fold (exec (markMCQPosted (id m) (or_null (res_poll_id res)) now)
             (log_call (CallSendPoll m) w)).
  erewrite load_after_mark; [reflexivity|].
  by apply find_by_id_unique.
Qed.

Lemma mark_posted_calls_log c w :
  mark_posted_calls (log_call c w)
  = (mark_posted_calls w + if is_mark_posted c then 1 else 0)%nat.
Proof.
  unfold mark_posted_calls; cbn. rewrite filter_app, length_app.
  by destruct c.
Qed.


(** ** A failed delivery *)



(** ** The pending count *)

Lemma addMCQ_appends question options correctIndex uploadedBy now w :
  ∃ entry,
    addMCQ question options correctIndex uploadedBy now w
    = (Ok entry, exec (addMCQ question options correctIndex uploadedBy now) w)
    ∧ mcqs (load_doc (db_file
        (exec (addMCQ question options correctIndex uploadedBy now) w)))
      = mcqs (load_doc (db_file w)) ++ [entry]
    ∧ entry = mkMCQ (nextId (load_doc (db_file w))) question options
                    correctIndex (or_null uploadedBy) now None None.
Proof. eexists. unfold exec. rewrite addMCQ_eq. by cbn. Qed.

Lemma delivery_lowers_count w i m res now :
  NoDup (ids (mcqs (load_doc (db_file w)))) →
  list_find pending (mcqs (load_doc (db_file w))) = Some (i, m) →
  S (count_pending (db_file (exec (postNextMCQIfAny (Resolved res) now) w)))
  = count_pending (db_file w).
Proof.
  intros Hnd Hfind. unfold count_pending.
  rewrite (delivery_success w i m res now Hnd Hfind).
  apply list_find_Some in Hfind as (Hi & Hp & _).
  by apply count_pending_stamp.
Qed.



(** ** Posted without a poll id *)

(** C10. When a delivery succeeds and the response carries no usable poll
    id ([res?.poll?.id] is absent or empty), the delivered record (ids
    being unique) ends up with a non-null [posted_at] and a null
    [telegram_poll_id]. *)
Theorem posted_without_poll_id w i m res now :
  let l := mcqs (load_doc (db_file w)) in
  NoDup (ids l) →
  list_find pending l = Some (i, m) →
  or_null (res_poll_id res) = None →
  let w' := exec (postNextMCQIfAny (Resolved res) now) w in
  ∃ m', mcqs (load_doc (db_file w')) !! i = Some m'
        ∧ id m' = id m
        ∧ posted_at m' = Some now
        ∧ telegram_poll_id m' = None.
Proof.
  intros l Hnd Hfind Hnull w'. subst w'.
  rewrite (delivery_success w i m res now Hnd Hfind). fold l.
  exists (stamp now (or_null (res_poll_id res)) m). split_and!.
  - apply list_lookup_insert_eq.
    apply list_find_Some in Hfind as (Hi & _). by eapply lookup_lt_Some.
  - reflexivity.
  - reflexivity.
  - cbn. by rewrite Hnull.
Qed.

Lemma posted_without_poll_id_witness :
  let w := boot file_AB in
  let w' := exec (postNextMCQIfAny (Resolved res_without_id) 530) w in
  or_null (res_poll_id res_without_id) = None
  ∧ ∃ m', mcqs (load_doc (db_file w')) !! 0%nat = Some m'
          ∧ id m' = 1
          ∧ posted_at m' = Some 530
          ∧ telegram_poll_id m' = None.
Proof.
  split; [reflexivity|].
  apply (posted_without_poll_id (boot file_AB) 0%nat mcq_A res_without_id 530
           (ids_increasing_NoDup _ (proj1 file_AB_well_formed))
           eq_refl eq_refl).
Defined.

(** ** Validation *)

Lemma validate_record_invariants question options correctIndex :
  validate options correctIndex = None → question ≠ "" →
  record_invariants question options correctIndex = true.
Proof.
  intros (z & -> & Hz & Hn)%validate_None Hq. unfold record_invariants.
  repeat (apply andb_true_intro; split).
  - apply Z.leb_le. lia.
  - apply Z.leb_le. lia.
  - apply Z.leb_le. lia.
  - apply Z.ltb_lt. lia.
  - by destruct question.
Qed.

Lemma record_invariants_validate question options correctIndex :
  record_invariants question options correctIndex = false → question ≠ "" →
  validate options correctIndex ≠ None.
Proof.
  intros Hbad Hq Hv.
  by rewrite (validate_record_invariants _ _ _ Hv Hq) in Hbad.
Qed.

Section UploadValidates.
Variable Number : string → JsNumber.

(** The handler of the main variant either leaves the file alone or
    appends one record that satisfies the record invariants. *)
Lemma upload_appends_only_valid private pieces from now ack ack' w :
  let w' := exec (upload Number private pieces from now ack ack') w in
  db_file w' = db_file w
  ∨ ∃ entry,
      mcqs (load_doc (db_file w')) = mcqs (load_doc (db_file w)) ++ [entry]
      ∧ record_invariants (question entry) (options entry)
                          (correct_index entry) = true.
Proof.
  intros w'. subst w'. unfold exec.
  destruct (upload_outcome Number private pieces from now ack ack' w)
    as [(r & ->) | (q & o & c & Hv & Hq & ->)];
    [left; by rewrite reply_eq|].
  right. fold (exec (enqueue q o c from now ack ack') w). rewrite enqueue_file.
  destruct (addMCQ_appends q o c (Some from) now w) as (entry & _ & Hl & ->).
  eexists. split; [exact Hl|]. cbn. by apply validate_record_invariants.
Qed.
End UploadValidates.



(** ** The upload checks of the two families *)

(** What the checks of the main variant reject. *)
Lemma validate_rejects options correctIndex :
  let n := Z.of_nat (length options) in
  (correctIndex = JsNonInt → validate options correctIndex = Some ReplyInvalidIndex)
  ∧ (∀ z, correctIndex = JsInt z → z < 0 ∨ n ≤ z →
          validate options correctIndex = Some ReplyInvalidIndex)
  ∧ (n < 2 ∨ 10 < n → validate options correctIndex ≠ None).
Proof.
  intros n. split_and!.
  - by intros ->.
  - intros z -> Hz. unfold validate; cbn. fold n.
    destruct (Z.ltb_spec z 0); [done|].
    destruct (Z.leb_spec n z); [done | lia].
  - intros Hn (z & _ & _ & ?)%validate_None. lia.
Qed.

(** C8. The checks of the main variant pass exactly when the index is an
    integer within the options and there are 2 to 10 options, and its upload
    handler appends nothing but records that satisfy the record invariants.  The handler of [bot.js] has the
    index check only: in a private chat, the message [/upload Q, A, 0]
    (one option) and a message with eleven options are both queued, where
    the main variant answers that the options must be 2..10 and stores
    nothing. *)
Theorem legacy_upload_accepts_bad_option_counts :
  let one := ["Q"; "A"; "0"] in
  let eleven := ["Q"; "A"; "B"; "C"; "D"; "E"; "F"; "G"; "H"; "I"; "J"; "K";
                 "0"] in
  (∀ options correctIndex,
     validate options correctIndex = None ↔
     ∃ z, correctIndex = JsInt z
          ∧ 0 ≤ z < Z.of_nat (length options)
          ∧ 2 ≤ Z.of_nat (length options) ≤ 10)
  ∧ (∀ Number private pieces from now ack ack' w,
       let w' := exec (upload Number private pieces from now ack ack') w in
       db_file w' = db_file w
       ∨ ∃ entry,
           mcqs (load_doc (db_file w')) = mcqs (load_doc (db_file w)) ++ [entry]
           ∧ record_invariants (question entry) (options entry)
                               (correct_index entry) = true)
  ∧ Legacy.mcqs (Legacy.load_doc (Legacy.db_file
      (exec (Legacy.upload Number_digits true one 7) (Legacy.boot None))))
    = [Legacy.mkMCQ 1 "Q" ["A"] (JsInt 0) 7]
  ∧ Legacy.mcqs (Legacy.load_doc (Legacy.db_file
      (exec (Legacy.upload Number_digits true eleven 7) (Legacy.boot None))))
    = [Legacy.mkMCQ 1 "Q" ["A"; "B"; "C"; "D"; "E"; "F"; "G"; "H"; "I"; "J"; "K"]
                    (JsInt 0) 7]
  ∧ (∀ ack ack',
       exec (upload Number_digits true one 7 0 ack ack') (boot None)
       = log_call (CallReply ReplyOptionsRange) (boot None))
  ∧ (∀ ack ack',
       exec (upload Number_digits true eleven 7 0 ack ack') (boot None)
       = log_call (CallReply ReplyOptionsRange) (boot None)).
Proof.
  intros one eleven. split_and!; try reflexivity.
  - apply validate_None.
  - intros. apply upload_appends_only_valid.
  - by intros [|err] ack'.
  - by intros [|err] ack'.
Qed.

(** ** Paused flag and timer handle *)

(** C9. [schedulerPaused] is true exactly when [schedulerHandle] is null,
    and exactly when no interval of the scheduler is live.  The equivalence
    holds when the process starts, and [startScheduler], [pauseScheduler],
    a delivery attempt (including its empty-queue branch) and the upload
    handler (including its resume path) each preserve it; so it holds after
    start-up and any sequence of uploads, timer ticks and launched
    attempts. *)
Theorem paused_iff_no_handle Number w :
  sched_inv w →
  sched_inv (exec startScheduler w)
  ∧ sched_inv (exec pauseScheduler w)
  ∧ (∀ net now, sched_inv (exec (postNextMCQIfAny net now) w))
  ∧ (∀ private pieces from now ack ack',
       sched_inv (exec (upload Number private pieces from now ack ack') w))
  ∧ (∀ es, sched_inv (run Number es w))
  ∧ (∀ f es,
       let w' := run Number es (started f) in
       (schedulerPaused w' = true ↔ schedulerHandle w' = None)
       ∧ (schedulerPaused w' = true ↔ timers w' = [])).
Proof.
  intros Hinv. split_and!.
  - by apply sched_inv_start.
  - by apply sched_inv_pause.
  - intros. by apply sched_inv_postNext.
  - intros.
    by apply (handle_sched_inv Number (Upload private pieces from now ack ack')).
  - intros. by apply run_sched_inv.
  - intros f es w'.
    destruct (run_sched_inv Number es _ (sched_inv_started f)) as [Hp Ht].
    fold w' in Hp, Ht. split; [exact Hp|]. rewrite Ht, Hp.
    by destruct (schedulerHandle w').
Qed.

Lemma paused_iff_no_handle_witness :
  sched_inv (boot None)
  ∧ sched_inv (exec startScheduler (boot None))
  ∧ sched_inv (exec pauseScheduler (exec startScheduler (boot None))).
Proof.
  assert (sched_inv (boot None)) as H0 by (split; [split|]; reflexivity).
  pose proof (paused_iff_no_handle Number_digits (boot None) H0)
    as (H1 & _).
  pose proof (paused_iff_no_handle Number_digits _ H1) as (_ & H2 & _).
  exact (conj H0 (conj H1 H2)).
Defined.

(** ** Ids handed out by [addMCQ] *)

Lemma sorted_lt_NoDup (zs : list Z) : StronglySorted Z.lt zs → NoDup zs.
Proof.
  induction 1 as [|z zs _ IH Hall]; constructor; [|exact IH].
  intros Hin. rewrite Forall_forall in Hall. specialize (Hall _ Hin). lia.
Qed.








(** ** Pause and resume *)

Lemma no_pending_iff (l : list MCQ) :
  length (filter pending l) = 0%nat ↔ list_find pending l = None.
Proof.
  rewrite list_find_None, Forall_forall. split.
  - intros Hlen%nil_length_inv x Hx Hp.
    by apply (filter_nil_not_elem_of pending l x).
  - intros Hall. destruct (filter pending l) as [|x rest] eqn:Hf; [done|].
    assert (x ∈ filter pending l) as Hx by (rewrite Hf; left).
    apply list_elem_of_filter in Hx as [Hp Hx]. by destruct (Hall x).
Qed.

Lemma find_pending_snoc (l : list MCQ) e :
  list_find pending l = None → pending e →
  list_find pending (l ++ [e]) = Some (length l, e).
Proof.
  intros Hnone He. rewrite list_find_app_r by exact Hnone. cbn.
  by rewrite decide_True by exact He.
Qed.

Lemma started_eq f :
  started f =
  if decide (0 < count_pending f)%nat
  then set_handle (Some 0%nat)
         (set_timers [0%nat] 1%nat
            (set_spawned 1%nat (set_paused false (boot f))))
  else boot f.
Proof.
  unfold started, exec. rewrite init_eq. cbn.
  destruct (decide _); [|reflexivity]. by rewrite startScheduler_eq.
Qed.

Lemma enqueue_from_paused question options correctIndex from now ack' w :
  schedulerPaused w = true → schedulerHandle w = None → timers w = [] →
  let w' := exec (enqueue question options correctIndex from now
                          Delivered ack') w in
  schedulerPaused w' = false
  ∧ schedulerHandle w' = Some (timer_seq w)
  ∧ timers w' = [timer_seq w]
  ∧ spawned w' = S (spawned w).
Proof.
  intros Hp Hh Ht w'. subst w'. unfold exec.
  rewrite enqueue_eq. cbn zeta. rewrite Hp. cbn [snd].
  unfold exec. rewrite startScheduler_eq, addMCQ_eq. cbn. rewrite Hh. cbn.
  by rewrite Ht.
Qed.

Lemma enqueue_unacknowledged question options correctIndex from now err ack' w :
  let w' := exec (enqueue question options correctIndex from now
                          (Undelivered err) ack') w in
  same_scheduler w w'
  ∧ count_pending (db_file w') = S (count_pending (db_file w)).
Proof.
  intros w'. split.
  - subst w'. unfold exec at 1. rewrite enqueue_eq. cbn zeta. cbn [snd].
    apply (addMCQ_same_scheduler question options correctIndex (Some from)
             now w).
  - subst w'. rewrite enqueue_file.
    destruct (addMCQ_appends question options correctIndex (Some from) now w)
      as (entry & _ & Hl & ->).
    unfold count_pending. rewrite Hl, filter_app, length_app, filter_cons.
    rewrite decide_True by reflexivity. cbn. lia.
Qed.

Lemma attempt_same_scheduler net now w i m :
  list_find pending (mcqs (load_doc (db_file w))) = Some (i, m) →
  same_scheduler w (exec (postNextMCQIfAny net now) w).
Proof.
  intros Hfind. unfold exec. destruct net as [err|res].
  - by rewrite (postNextMCQIfAny_rejected _ _ _ _ _ Hfind).
  - rewrite (postNextMCQIfAny_resolved _ _ _ _ _ Hfind).
    apply (markMCQPosted_same_scheduler _ _ _ (log_call _ w)).
Qed.

(** With no live interval and no launched attempt, nothing but an upload
    changes anything. *)
Lemma idle_without_uploads Number es w :
  timers w = [] → spawned w = 0%nat →
  Forall (λ e, match e with Upload _ _ _ _ _ _ => False | _ => True end) es →
  run Number es w = w.
Proof.
  intros Ht Hs. induction 1 as [|e es He _ IH]; [reflexivity|].
  cbn [run]. destruct e as [? ? ? ? ? ?|h net now|net now]; [done| |].
  - unfold exec; cbn [handle]. unfold mbind, StateExn_bind, gets.
    rewrite Ht. rewrite decide_False by apply not_elem_of_nil. exact IH.
  - unfold exec; cbn [handle]. unfold mbind, StateExn_bind, gets.
    rewrite Hs. exact IH.
Qed.

(** C3.  After start-up the scheduler is RUNNING if [countPendingMCQs]
    returns more than 0 (with a timer set and a first attempt launched) and
    PAUSED otherwise.  Take a well-formed file with nothing pending (an
    empty store in particular): the process starts PAUSED; an upload that
    gets queued and whose acknowledgement is delivered makes it RUNNING,
    sets the timer and launches a delivery attempt at once; when that
    attempt succeeds nothing is pending any more and the scheduler is still
    RUNNING; the next tick of the timer then makes it PAUSED, clears the
    handle and leaves no live timer.
    When the acknowledgement of the queued upload is rejected, the handler
    stops before [startScheduler]: the record is stored and pending, the
    scheduler is still PAUSED with no handle, no timer and no attempt
    launched, and no later tick delivers it. *)
Theorem scheduler_pause_resume Number f private pieces from now ack' res now2
    net3 now3 :
  let w0 := started f in
  (∃ n, countPendingMCQs (boot f) = (Ok n, boot f)
        ∧ sched_state w0 = (if decide (0 < n)%nat then RUNNING else PAUSED)
        ∧ ((0 < n)%nat →
           spawned w0 = 1%nat
           ∧ ∃ h, schedulerHandle w0 = Some h ∧ timers w0 = [h]))
  ∧ (let w1 := exec (handle Number
                       (Upload private pieces from now Delivered ack')) w0 in
     let w2 := exec (handle Number (SpawnedRuns (Resolved res) now2)) w1 in
     well_formed (load_doc f) →
     count_pending f = 0%nat →
     count_pending (db_file w1) = 1%nat →
     sched_state w0 = PAUSED
     ∧ sched_state w1 = RUNNING
     ∧ spawned w1 = 1%nat
     ∧ ∃ h, schedulerHandle w1 = Some h ∧ timers w1 = [h]
         ∧ count_pending (db_file w2) = 0%nat
         ∧ sched_state w2 = RUNNING
         ∧ timers w2 = [h]
         ∧ let w3 := exec (handle Number (TimerFires h net3 now3)) w2 in
           sched_state w3 = PAUSED
           ∧ schedulerHandle w3 = None
           ∧ timers w3 = [])
  ∧ (∀ err,
       let w1 := exec (handle Number
                         (Upload private pieces from now (Undelivered err) ack'))
                      w0 in
       count_pending f = 0%nat →
       count_pending (db_file w1) = 1%nat →
       sched_state w1 = PAUSED
       ∧ schedulerHandle w1 = None
       ∧ timers w1 = []
       ∧ spawned w1 = 0%nat
       ∧ ∀ es,
           Forall (λ e, match e with
                        | Upload _ _ _ _ _ _ => False
                        | _ => True
                        end) es →
           run Number es w1 = w1).
Proof.
  intros w0. split_and!.
  - exists (count_pending f). split; [apply countPendingMCQs_eq|].
    subst w0. rewrite started_eq. split.
    + by destruct (decide _).
    + intros Hpos. rewrite decide_True by exact Hpos.
      split; [reflexivity|]. by exists 0%nat.
  - intros w1 w2 Hwf Hzero Hone.
    assert (w0 = boot f) as Hw0.
    { subst w0. rewrite started_eq. rewrite decide_False by lia. reflexivity. }
    (* the upload was queued *)
    assert (∃ q o c, w1 = exec (enqueue q o c from now Delivered ack') (boot f))
      as (q & o & c & Hw1).
    { destruct (upload_outcome Number private pieces from now Delivered ack'
                  (boot f))
        as [(r & Hr) | (q & o & c & _ & _ & Hq)].
      - exfalso. subst w1. rewrite Hw0 in Hone. unfold exec in Hone.
        cbn [handle] in Hone. rewrite Hr, reply_eq in Hone.
        change (count_pending f = 1%nat) in Hone. lia.
      - exists q, o, c. subst w1. rewrite Hw0. unfold exec; cbn [handle].
        by rewrite Hq. }
    destruct (enqueue_from_paused q o c from now ack' (boot f)
                eq_refl eq_refl eq_refl)
      as (Hp1 & Hh1 & Ht1 & Hs1).
    rewrite <- Hw1 in Hp1, Hh1, Ht1, Hs1. cbn in Hh1, Ht1, Hs1.
    (* the file after the upload *)
    set (l := mcqs (load_doc f)).
    set (e := mkMCQ (nextId (load_doc f)) q o c (or_null (Some from)) now
                    None None).
    assert (mcqs (load_doc (db_file w1)) = l ++ [e]) as Hl1.
    { rewrite Hw1, enqueue_file.
      by destruct (addMCQ_appends q o c (Some from) now (boot f))
        as (entry & _ & -> & ->). }
    assert (list_find pending (mcqs (load_doc (db_file w1)))
            = Some (length l, e)) as Hfind1.
    { rewrite Hl1.
      apply find_pending_snoc; [by apply no_pending_iff | reflexivity]. }
    assert (NoDup (ids (mcqs (load_doc (db_file w1))))) as Hnd1.
    { apply ids_increasing_NoDup. rewrite Hl1.
      apply (well_formed_add (load_doc f) e Hwf eq_refl). }
    (* the attempt launched by the upload *)
    set (w1' := set_spawned 0%nat w1).
    assert (w2 = exec (postNextMCQIfAny (Resolved res) now2) w1') as Hw2.
    { subst w2. unfold exec; cbn [handle].
      unfold mbind, StateExn_bind, gets, modify. by rewrite Hs1. }
    assert (same_scheduler w1' w2) as (Hh2 & Hp2 & Ht2 & _).
    { rewrite Hw2. by eapply (attempt_same_scheduler _ _ w1'). }
    cbn in Hh2, Hp2, Ht2.
    assert (count_pending (db_file w2) = 0%nat) as Hzero2.
    { pose proof (delivery_lowers_count w1' _ _ res now2 Hnd1 Hfind1)
        as Hcount.
      rewrite <- Hw2 in Hcount.
      change (db_file w1') with (db_file w1) in Hcount. lia. }
    split_and!.
    + by rewrite Hw0.
    + unfold sched_state. by rewrite Hp1.
    + exact Hs1.
    + exists 0%nat. split_and!.
      * exact Hh1.
      * exact Ht1.
      * exact Hzero2.
      * unfold sched_state. by rewrite Hp2, Hp1.
      * by rewrite Ht2, Ht1.
      * (* the next tick *)
        intros w3.
        assert (w3 = exec pauseScheduler w2) as ->.
        { subst w3. unfold exec; cbn [handle].
          unfold mbind at 1, StateExn_bind at 1, gets.
          rewrite decide_True by (rewrite Ht2, Ht1; left).
          rewrite postNextMCQIfAny_empty; [reflexivity|].
          by apply no_pending_iff. }
        unfold exec. rewrite pauseScheduler_eq. cbn.
        split_and!; [reflexivity | reflexivity |].
        rewrite Hh2, Hh1, Ht2, Ht1. reflexivity.
  - intros err w1 Hzero Hone.
    assert (w0 = boot f) as Hw0.
    { subst w0. rewrite started_eq. rewrite decide_False by lia. reflexivity. }
    assert (same_scheduler (boot f) w1) as (Hh & Hp & Ht & Hs).
    { subst w1. rewrite Hw0. unfold exec; cbn [handle].
      destruct (upload_outcome Number private pieces from now (Undelivered err)
                  ack' (boot f))
        as [(r & ->) | (q & o & c & _ & _ & ->)].
      - by rewrite reply_eq.
      - apply (enqueue_unacknowledged q o c from now err ack' (boot f)). }
    cbn in Hh, Hp, Ht, Hs.
    split_and!; [unfold sched_state; by rewrite Hp | done..|].
    intros es Hes. by apply idle_without_uploads.
Qed.

Lemma scheduler_pause_resume_witness :
  let pieces := ["2+2=?"; "3"; "4"; "5"; "1"] in
  let w1 := exec (handle Number_digits
                    (Upload true pieces 7 100 Delivered Delivered))
                 (started None) in
  let w2 := exec (handle Number_digits (SpawnedRuns (Resolved res_with_id) 101))
                 w1 in
  let w3 := exec (handle Number_digits (TimerFires 0%nat (Rejected "down") 130))
                 w2 in
  let v1 := exec (handle Number_digits
                    (Upload true pieces 7 100 (Undelivered "blocked") Delivered))
                 (started None) in
  well_formed (load_doc None)
  ∧ count_pending None = 0%nat
  ∧ count_pending (db_file w1) = 1%nat
  ∧ sched_state (started None) = PAUSED
  ∧ sched_state w1 = RUNNING
  ∧ sched_state w2 = RUNNING
  ∧ sched_state w3 = PAUSED
  ∧ count_pending (db_file v1) = 1%nat
  ∧ sched_state v1 = PAUSED
  ∧ timers v1 = [].
Proof.
  intros pieces w1 w2 w3 v1.
  pose proof (scheduler_pause_resume Number_digits None true pieces 7 100
                Delivered res_with_id 101 (Rejected "down") 130)
    as (_ & H & Hbad).
  destruct (H well_formed_absent eq_refl eq_refl)
    as (H0 & H1 & _ & h & Hh & _ & _ & H2 & _ & H3 & _).
  assert (h = 0%nat) as -> by (vm_compute in Hh; congruence).
  destruct (Hbad "blocked" eq_refl eq_refl) as (Hv1 & _ & Hv2 & _).
  exact (conj well_formed_absent (conj eq_refl (conj eq_refl
           (conj H0 (conj H1 (conj H2 (conj H3
             (conj eq_refl (conj Hv1 Hv2))))))))).
Defined.

(** * Further properties of the code *)

(** ** The file *)

(** X1. Saving the document that [loadDB] returned and loading again gives
    that document back, whatever the file was (absent, without a counter,
    with a zero counter); and the collection of any saved document is read
    back as it was written. *)
Theorem load_save_round_trip f db :
  load_doc (store_doc (load_doc f)) = load_doc f
  ∧ (loadDB (exec (saveDB (load_doc f)) (boot f))).1 = Ok (load_doc f)
  ∧ mcqs (load_doc (store_doc db)) = mcqs db.
Proof.
  assert (load_doc (store_doc (load_doc f)) = load_doc f) as H
    by apply load_store_canonical, load_doc_canonical.
  split; [exact H|]. split; [|reflexivity].
  unfold loadDB, gets, exec, saveDB, modify. cbn [fst snd set_file db_file].
  by rewrite H.
Qed.

(** X2. When the file has no usable counter (the field is absent or zero)
    and the stored ids are safe integers (from -2^53 up to, not including,
    2^53), [loadDB] recomputes the counter: it is above every stored id,
    it is 1 for an empty collection, and otherwise it is one more than a
    stored id (the largest). *)
Theorem load_recomputes_counter raw :
  or_null (raw_nextId raw) = None →
  Forall (λ i, - MAX_SAFE ≤ i < MAX_SAFE) (ids (default [] (raw_mcqs raw))) →
  let db := load_doc (Some raw) in
  next_id_fresh db
  ∧ (mcqs db = [] → nextId db = 1)
  ∧ (mcqs db ≠ [] → nextId db - 1 ∈ ids (mcqs db)).
Proof.
  intros Hnone Hsafe db. subst db. unfold next_id_fresh, load_doc.
  rewrite Hnone. cbn [nextId mcqs].
  set (l := default [] (raw_mcqs raw)) in *.
  destruct (ids l) as [|i rest] eqn:Hids.
  - assert (l = []) as -> by (by destruct l).
    split_and!; [constructor | done | done].
  - pose proof (Math_max_elem i rest) as Hin.
    rewrite Forall_forall in Hsafe. specialize (Hsafe _ Hin).
    rewrite js_add_succ by lia.
    split_and!.
    + eapply Forall_impl; [apply Math_max_ge|]. cbn. intros; lia.
    + intros ->. discriminate.
    + intros _. replace (Math_max i rest + 1 - 1) with (Math_max i rest) by lia.
      exact Hin.
Qed.

Lemma load_recomputes_counter_witness :
  let raw := {| raw_nextId := Some 0; raw_mcqs := Some [mcq_A; mcq_B] |} in
  or_null (raw_nextId raw) = None
  ∧ next_id_fresh (load_doc (Some raw))
  ∧ nextId (load_doc (Some raw)) = 3.
Proof.
  intros raw. split; [reflexivity|]. split; [|reflexivity].
  apply (load_recomputes_counter raw eq_refl).
  repeat constructor; vm_compute; discriminate.
Defined.

(** ** Invariants of a run *)

Lemma keeps_records_refl l : keeps_records l l.
Proof. intros i m Hi. exists m. by repeat split. Qed.

Lemma keeps_records_trans l1 l2 l3 :
  keeps_records l1 l2 → keeps_records l2 l3 → keeps_records l1 l3.
Proof.
  intros H12 H23 i m Hi.
  destruct (H12 i m Hi) as (m2 & Hi2 & (? & ? & ? & ? & ? & ?) & Hp2).
  destruct (H23 i m2 Hi2) as (m3 & Hi3 & (? & ? & ? & ? & ? & ?) & Hp3).
  exists m3. split; [exact Hi3|]. split; [|by auto].
  unfold same_content. split_and!; congruence.
Qed.

Lemma keeps_records_snoc l e : keeps_records l (l ++ [e]).
Proof.
  intros i m Hi. exists m. split; [by apply lookup_app_l_Some|].
  by repeat split.
Qed.

Lemma keeps_records_stamp (l : list MCQ) idx m now pollId :
  l !! idx = Some m → keeps_records l (<[idx := stamp now pollId m]> l).
Proof.
  intros Hidx i x Hi. destruct (decide (i = idx)) as [->|Hne].
  - assert (x = m) as -> by congruence.
    exists (stamp now pollId m). split.
    + apply list_lookup_insert_eq. by eapply lookup_lt_Some.
    + by repeat split.
  - exists x. rewrite list_lookup_insert_ne by done.
    split; [exact Hi|]. by repeat split.
Qed.

Lemma keeps_records_mark mcq_id pollId now w :
  keeps_records (mcqs (load_doc (db_file w)))
    (mcqs (load_doc (db_file (exec (markMCQPosted mcq_id pollId now) w)))).
Proof.
  destruct (list_find (λ m, id m = mcq_id) (mcqs (load_doc (db_file w))))
    as [[idx m]|] eqn:Hfind.
  - rewrite (load_after_mark _ _ _ _ _ _ Hfind). cbn [mcqs].
    apply keeps_records_stamp. by apply list_find_Some in Hfind as [? _].
  - rewrite file_after_missing_mark by done. apply keeps_records_refl.
Qed.

Lemma keeps_records_postNext net now w :
  keeps_records (mcqs (load_doc (db_file w)))
    (mcqs (load_doc (db_file (exec (postNextMCQIfAny net now) w)))).
Proof.
  destruct (list_find pending (mcqs (load_doc (db_file w))))
    as [[i m]|] eqn:Hfind; unfold exec.
  - destruct net as [err|res].
    + rewrite (postNextMCQIfAny_rejected _ _ _ _ _ Hfind).
      apply keeps_records_refl.
    + rewrite (postNextMCQIfAny_resolved _ _ _ _ _ Hfind).
      apply (keeps_records_mark _ _ _ (log_call _ w)).
  - rewrite (postNextMCQIfAny_empty _ _ _ Hfind), pauseScheduler_eq. cbn.
    destruct (schedulerHandle w); apply keeps_records_refl.
Qed.

Lemma paused_means_empty_postNext net now w :
  paused_means_empty w →
  paused_means_empty (exec (postNextMCQIfAny net now) w).
Proof.
  unfold paused_means_empty. intros Hinv.
  destruct (list_find pending (mcqs (load_doc (db_file w))))
    as [[i m]|] eqn:Hfind.
  - destruct (attempt_same_scheduler net now w i m Hfind) as (_ & -> & _).
    intros Hp. specialize (Hinv Hp).
    apply no_pending_iff in Hinv. congruence.
  - intros _. unfold exec.
    rewrite (postNextMCQIfAny_empty _ _ _ Hfind), pauseScheduler_eq. cbn.
    apply no_pending_iff in Hfind.
    by destruct (schedulerHandle w).
Qed.

Lemma enqueue_not_paused question options correctIndex from now ack' w :
  schedulerPaused
    (exec (enqueue question options correctIndex from now Delivered ack') w)
  = false.
Proof.
  unfold exec at 1. rewrite enqueue_eq. cbn zeta.
  destruct (schedulerPaused w) eqn:Hp; cbn [snd].
  - unfold exec at 1. rewrite startScheduler_eq. cbn.
    by destruct (schedulerHandle (exec _ w)).
  - cbn. rewrite <- Hp.
    apply (addMCQ_same_scheduler question options correctIndex (Some from)
             now w).
Qed.

Section RunInvariants.
Variable Number : string → JsNumber.

Lemma keeps_records_handle e w :
  keeps_records (mcqs (load_doc (db_file w)))
    (mcqs (load_doc (db_file (exec (handle Number e) w)))).
Proof.
  destruct e as [private pieces from now ack ack' | h net now | net now];
    unfold exec; cbn [handle].
  - destruct (upload_outcome Number private pieces from now ack ack' w)
      as [(r & ->) | (q & o & c & _ & _ & ->)].
    + rewrite reply_eq. apply keeps_records_refl.
    + fold (exec (enqueue q o c from now ack ack') w). rewrite enqueue_file.
      destruct (addMCQ_appends q o c (Some from) now w) as (e & _ & -> & _).
      apply keeps_records_snoc.
  - unfold mbind, StateExn_bind, gets.
    destruct (decide (h ∈ timers w)); [|apply keeps_records_refl].
    apply keeps_records_postNext.
  - unfold mbind, StateExn_bind, gets, modify.
    destruct (spawned w) as [|n]; [apply keeps_records_refl|].
    apply (keeps_records_postNext net now (set_spawned n w)).
Qed.

Lemma paused_means_empty_handle e w :
  match e with Upload _ _ _ _ ack _ => ack = Delivered | _ => True end →
  paused_means_empty w → paused_means_empty (exec (handle Number e) w).
Proof.
  intros Hack Hinv.
  destruct e as [private pieces from now ack ack' | h net now | net now];
    unfold exec; cbn [handle].
  - subst ack.
    destruct (upload_outcome Number private pieces from now Delivered ack' w)
      as [(r & ->) | (q & o & c & _ & _ & ->)].
    + by rewrite reply_eq.
    + intros Hp. fold (exec (enqueue q o c from now Delivered ack') w) in Hp.
      by rewrite enqueue_not_paused in Hp.
  - unfold mbind, StateExn_bind, gets.
    destruct (decide (h ∈ timers w)); [|exact Hinv].
    by apply paused_means_empty_postNext.
  - unfold mbind, StateExn_bind, gets, modify.
    destruct (spawned w) as [|n]; [exact Hinv|].
    by apply (paused_means_empty_postNext net now (set_spawned n w)).
Qed.

Lemma keeps_records_run es w :
  keeps_records (mcqs (load_doc (db_file w)))
    (mcqs (load_doc (db_file (run Number es w)))).
Proof.
  revert w. induction es as [|e es IH]; intros w; cbn [run].
  - apply keeps_records_refl.
  - eapply keeps_records_trans; [apply keeps_records_handle | apply IH].
Qed.

Lemma paused_means_empty_run es w :
  acks_delivered es →
  paused_means_empty w → paused_means_empty (run Number es w).
Proof.
  intros Hacks. revert w.
  induction Hacks as [|e es He _ IH]; intros w Hinv; cbn [run]; [done|].
  by apply IH, paused_means_empty_handle.
Qed.
End RunInvariants.

Lemma paused_means_empty_started f : paused_means_empty (started f).
Proof.
  unfold paused_means_empty. rewrite started_eq.
  destruct (decide (0 < count_pending f)%nat); cbn; [discriminate|].
  intros _. lia.
Qed.

(** X3. Nothing that happens in the process (uploads, timer ticks, launched
    attempts, with any outcomes) removes, moves or rewrites a stored record:
    each record stays at its position with the same id, question, options,
    index and upload stamp, and a record that is posted stays posted. *)
Theorem records_are_kept Number es w :
  let l := mcqs (load_doc (db_file w)) in
  let l' := mcqs (load_doc (db_file (run Number es w))) in
  (length l ≤ length l')%nat
  ∧ ∀ i m, l !! i = Some m →
      ∃ m', l' !! i = Some m' ∧ same_content m m'
            ∧ (posted_at m ≠ None → posted_at m' ≠ None).
Proof.
  intros l l'. pose proof (keeps_records_run Number es w) as Hkeep.
  fold l l' in Hkeep. split; [|exact Hkeep].
  destruct (decide (length l ≤ length l')%nat) as [|Hgt]; [done|].
  destruct (lookup_lt_is_Some_2 l (length l')) as [m Hm]; [lia|].
  destruct (Hkeep _ _ Hm) as (m' & Hm' & _).
  apply lookup_lt_Some in Hm'. lia.
Qed.

(** X4. After start-up and any sequence of uploads, timer ticks and
    launched attempts in which every upload gets its first reply through,
    the scheduler is never paused while a record is pending: if
    [schedulerPaused] is true, [countPendingMCQs] returns 0. *)
Theorem never_paused_with_pending Number f es :
  acks_delivered es →
  let w := run Number es (started f) in
  schedulerPaused w = true →
  countPendingMCQs w = (Ok 0%nat, w) ∧ count_pending (db_file w) = 0%nat.
Proof.
  intros Hacks w Hp.
  assert (count_pending (db_file w) = 0%nat) as H0.
  { apply (paused_means_empty_run Number es (started f) Hacks); [|exact Hp].
    apply paused_means_empty_started. }
  split; [|exact H0]. by rewrite countPendingMCQs_eq, H0.
Qed.

Lemma never_paused_with_pending_witness :
  let es := [Upload true ["Q"; "a"; "b"; "0"] 7 100 Delivered Delivered;
             SpawnedRuns (Resolved res_with_id) 101;
             TimerFires 0%nat (Resolved None) 130] in
  let w := run Number_digits es (started None) in
  acks_delivered es
  ∧ schedulerPaused w = true ∧ count_pending (db_file w) = 0%nat.
Proof.
  intros es w.
  assert (acks_delivered es) as Hacks by (by repeat constructor).
  assert (schedulerPaused w = true) as Hp by reflexivity.
  split; [exact Hacks|]. split; [exact Hp|].
  exact (proj2 (never_paused_with_pending Number_digits None es Hacks Hp)).
Defined.

(** X5. A well-formed document stays well-formed through any sequence of
    uploads, timer ticks and launched attempts for which the counter has
    room below 2^53 (one increment per event): ids remain pairwise
    distinct, increasing along the collection, at least 1 and below
    [nextId]. *)
Theorem well_formed_along_runs Number es w :
  well_formed (load_doc (db_file w)) →
  nextId (load_doc (db_file w)) + Z.of_nat (length es) ≤ MAX_SAFE →
  let db := load_doc (db_file (run Number es w)) in
  well_formed db
  ∧ NoDup (ids (mcqs db))
  ∧ Forall (λ i, 1 ≤ i < nextId db) (ids (mcqs db)).
Proof.
  intros Hwf Hhi db.
  destruct (run_well_formed Number es w Hwf Hhi) as [Hwf' _].
  fold db in Hwf'. split; [exact Hwf'|].
  split; [apply ids_increasing_NoDup, Hwf'|].
  destruct Hwf' as (_ & Hpos & Hfresh & _). unfold next_id_fresh in Hfresh.
  rewrite Forall_forall in Hpos, Hfresh. apply Forall_forall.
  intros i Hi. specialize (Hpos i Hi). specialize (Hfresh i Hi). lia.
Qed.

Lemma well_formed_along_runs_witness :
  let es := [Upload true ["Q"; "a"; "b"; "0"] 7 100 Delivered Delivered;
             Upload true ["R"; "a"; "b"; "c"; "2"] 7 105
                    (Undelivered "blocked") Delivered] in
  well_formed (load_doc (db_file (boot None)))
  ∧ nextId (load_doc (db_file (boot None))) + Z.of_nat (length es) ≤ MAX_SAFE
  ∧ NoDup (ids (mcqs (load_doc (db_file
             (run Number_digits es (boot None)))))).
Proof.
  intros es.
  assert (nextId (load_doc (db_file (boot None))) + Z.of_nat (length es)
          ≤ MAX_SAFE) as Hhi by (vm_compute; discriminate).
  split; [exact well_formed_absent|]. split; [exact Hhi|].
  apply (well_formed_along_runs Number_digits es (boot None)
           well_formed_absent Hhi).
Defined.

(** ** Starting and pausing *)

Lemma set_paused_same w : set_paused (schedulerPaused w) w = w.
Proof. by destruct w. Qed.

(** X6. [startScheduler] on a scheduler that already has its interval is a
    no-op: no second interval, no second immediate attempt, nothing
    changes.  [pauseScheduler] on a paused scheduler changes nothing
    either. *)
Theorem start_and_pause_are_idempotent w :
  sched_inv w →
  (schedulerHandle w ≠ None → exec startScheduler w = w)
  ∧ (schedulerHandle w = None → exec pauseScheduler w = w)
  ∧ exec startScheduler (exec startScheduler w) = exec startScheduler w
  ∧ exec pauseScheduler (exec pauseScheduler w) = exec pauseScheduler w.
Proof.
  intros [Hp Ht].
  assert (∀ v, sched_inv v → schedulerHandle v ≠ None →
               exec startScheduler v = v) as Hstart.
  { intros v [Hpv _] Hh. unfold exec. rewrite startScheduler_eq. cbn.
    destruct (schedulerHandle v) as [h|] eqn:Hhv; [|done].
    destruct (schedulerPaused v) eqn:Hpaused.
    - by destruct Hpv as [Hpv _]; specialize (Hpv eq_refl).
    - rewrite <- Hpaused. apply set_paused_same. }
  assert (∀ v, sched_inv v → schedulerHandle v = None →
               exec pauseScheduler v = v) as Hpause.
  { intros v [Hpv _] Hh. unfold exec. rewrite pauseScheduler_eq. cbn.
    rewrite Hh. destruct Hpv as [_ Hpv]. specialize (Hpv Hh).
    destruct v; cbn in *; by subst. }
  split_and!.
  - by apply Hstart.
  - by apply Hpause.
  - apply Hstart; [by apply sched_inv_start|].
    unfold exec. rewrite startScheduler_eq. cbn.
    destruct (schedulerHandle w) eqn:Hh; cbn; by rewrite ?Hh.
  - apply Hpause; [by apply sched_inv_pause|].
    unfold exec. by rewrite pauseScheduler_eq.
Qed.

Lemma start_and_pause_are_idempotent_witness :
  let w := exec startScheduler (boot file_AB) in
  sched_inv w ∧ schedulerHandle w ≠ None ∧ exec startScheduler w = w.
Proof.
  intros w.
  assert (sched_inv w) as Hinv by (split; [split; discriminate | reflexivity]).
  assert (schedulerHandle w ≠ None) as Hh by discriminate.
  split; [exact Hinv|]. split; [exact Hh|].
  exact (proj1 (start_and_pause_are_idempotent w Hinv) Hh).
Defined.

(** ** Series of delivery attempts *)

Lemma sent_records_log c w :
  sent_records (log_call c w)
  = sent_records w ++ match c with CallSendPoll m => [m] | _ => [] end.
Proof.
  unfold sent_records; cbn. rewrite omap_app. by destruct c.
Qed.

Lemma sent_records_mark mcq_id pollId now w :
  sent_records (exec (markMCQPosted mcq_id pollId now) w) = sent_records w.
Proof.
  unfold exec.
  destruct (list_find (λ m, id m = mcq_id) (mcqs (load_doc (db_file w))))
    as [[idx m]|] eqn:Hfind.
  - rewrite (markMCQPosted_found _ _ _ _ _ _ Hfind). cbn [snd].
    change (sent_records (set_file ?f ?x)) with (sent_records x).
    by rewrite sent_records_log, app_nil_r.
  - rewrite (markMCQPosted_missing _ _ _ _ Hfind). cbn [snd].
    by rewrite sent_records_log, app_nil_r.
Qed.

Lemma sent_records_attempt net now w :
  sent_records (exec (postNextMCQIfAny net now) w)
  = sent_records w
    ++ match list_find pending (mcqs (load_doc (db_file w))) with
       | Some (_, m) => [m]
       | None => []
       end.
Proof.
  destruct (list_find pending (mcqs (load_doc (db_file w))))
    as [[i m]|] eqn:Hfind; unfold exec.
  - destruct net as [err|res].
    + rewrite (postNextMCQIfAny_rejected _ _ _ _ _ Hfind). cbn [snd].
      apply sent_records_log.
    + rewrite (postNextMCQIfAny_resolved _ _ _ _ _ Hfind).
      fold (exec (markMCQPosted (id m) (or_null (res_poll_id res)) now)
                 (log_call (CallSendPoll m) w)).
      rewrite sent_records_mark. apply sent_records_log.
  - rewrite (postNextMCQIfAny_empty _ _ _ Hfind), pauseScheduler_eq. cbn [snd].
    rewrite app_nil_r. unfold sent_records. cbn.
    by destruct (schedulerHandle w).
Qed.


Lemma count_stamp_any (l : list MCQ) idx m now pollId :
  l !! idx = Some m →
  (length (filter pending (<[idx := stamp now pollId m]> l))
   + (if decide (pending m) then 1 else 0))%nat
  = length (filter pending l).
Proof.
  intros Hidx.
  rewrite <- (take_drop_middle l idx m Hidx) at 2.
  rewrite insert_take_drop by (by eapply lookup_lt_Some).
  rewrite !filter_app, !filter_cons, !length_app.
  rewrite (decide_False (P := pending (stamp now pollId m)))
    by (unfold pending; cbn; discriminate).
  destruct (decide (pending m)); cbn; lia.
Qed.

(** X7. One delivery attempt calls [sendPoll] at most once: on the head
    pending record if there is one, not at all otherwise.  Whatever the
    outcome and whatever the document, it lowers the pending count by at
    most one and never raises it; a rejected send leaves the file as it
    was. *)
Theorem attempt_sends_at_most_one net now w :
  let w' := exec (postNextMCQIfAny net now) w in
  sent_records w'
  = sent_records w
    ++ match list_find pending (mcqs (load_doc (db_file w))) with
       | Some (_, m) => [m]
       | None => []
       end
  ∧ (count_pending (db_file w') ≤ count_pending (db_file w))%nat
  ∧ (count_pending (db_file w) ≤ S (count_pending (db_file w')))%nat
  ∧ ∀ err, net = Rejected err → db_file w' = db_file w.
Proof.
  intros w'. split; [apply sent_records_attempt|].
  subst w'. unfold exec.
  destruct (list_find pending (mcqs (load_doc (db_file w))))
    as [[i m]|] eqn:Hfind.
  - destruct net as [err|res].
    + rewrite (postNextMCQIfAny_rejected _ _ _ _ _ Hfind). cbn.
      split_and!; [lia | lia | done].
    + rewrite (postNextMCQIfAny_resolved _ _ _ _ _ Hfind).
      set (v := log_call (CallSendPoll m) w).
      fold (exec (markMCQPosted (id m) (or_null (res_poll_id res)) now) v).
      assert (count_pending (db_file
                (exec (markMCQPosted (id m) (or_null (res_poll_id res)) now) v))
              ≤ count_pending (db_file w)
              ≤ S (count_pending (db_file
                (exec (markMCQPosted (id m) (or_null (res_poll_id res)) now) v))))%nat
        as Hb.
      { destruct (list_find (λ x, id x = id m) (mcqs (load_doc (db_file v))))
          as [[idx x]|] eqn:Hid.
        - unfold count_pending. rewrite (load_after_mark _ _ _ _ _ _ Hid).
          cbn [mcqs]. apply list_find_Some in Hid as (Hidx & _).
          pose proof (count_stamp_any _ _ _ now (or_null (res_poll_id res)) Hidx)
            as Hc.
          change (db_file v) with (db_file w) in *.
          destruct (decide (pending x)); lia.
        - rewrite file_after_missing_mark by done.
          change (db_file v) with (db_file w). lia. }
      split_and!; [lia | lia | by intros err [=]].
  - rewrite (postNextMCQIfAny_empty _ _ _ Hfind), pauseScheduler_eq. cbn.
    destruct (schedulerHandle w); cbn; split_and!; (lia || done).
Qed.

(** X8. Head-of-line blocking.  While [sendPoll] keeps failing, every
    attempt is made on the same head pending record: after any number of
    failed attempts the file and the scheduler are as before, that record
    was sent once per attempt, no other record was sent and
    [markMCQPosted] was never called. *)
Theorem failing_head_blocks_queue errs w i m :
  list_find pending (mcqs (load_doc (db_file w))) = Some (i, m) →
  let w' := attempts ((λ p : string * Z, (Rejected p.1, p.2)) <$> errs) w in
  db_file w' = db_file w
  ∧ same_scheduler w w'
  ∧ sent_records w' = sent_records w ++ replicate (length errs) m
  ∧ mark_posted_calls w' = mark_posted_calls w.
Proof.
  revert w. induction errs as [|[err now] errs IH]; intros w Hfind; cbn.
  - rewrite app_nil_r. by repeat split.
  - unfold exec at 1 2 3 4.
    rewrite (postNextMCQIfAny_rejected _ _ _ _ _ Hfind). cbn [snd].
    destruct (IH (log_call (CallSendPoll m) w) Hfind)
      as (Hf & (Hh & Hp & Ht & Hs) & Hsent & Hmark).
    split_and!.
    + exact Hf.
    + by repeat split.
    + rewrite Hsent, sent_records_log, <- app_assoc. reflexivity.
    + rewrite Hmark, mark_posted_calls_log. cbn. lia.
Qed.

Lemma failing_head_blocks_queue_witness :
  let errs := [("timeout", 500); ("429", 530); ("timeout", 560)] in
  let w' := attempts ((λ p : string * Z, (Rejected p.1, p.2)) <$> errs)
                     (boot file_AB) in
  list_find pending (mcqs (load_doc (db_file (boot file_AB))))
  = Some (0%nat, mcq_A)
  ∧ sent_records w' = [mcq_A; mcq_A; mcq_A]
  ∧ db_file w' = file_AB.
Proof.
  intros errs w'.
  destruct (failing_head_blocks_queue errs (boot file_AB) 0%nat mcq_A eq_refl)
    as (Hf & _ & Hsent & _).
  split; [reflexivity|]. split; [exact Hsent | exact Hf].
Defined.




(** ** Reading the queue *)

(** X10. [/preview] is read-only and agrees with the scheduler: outside a
    private chat it answers without looking at the store; in a private
    chat it shows the record that the next delivery attempt will send, and
    it answers that nothing is queued exactly when the next attempt would
    send nothing and pause the scheduler. *)
Theorem preview_shows_next_delivery w :
  preview false w = (Ok PreviewPrivateOnly, w)
  ∧ match list_find pending (mcqs (load_doc (db_file w))) with
    | Some (_, m) =>
        preview true w = (Ok (PreviewText (preview_text m)), w)
        ∧ ∀ net now,
            sent_records (exec (postNextMCQIfAny net now) w)
            = sent_records w ++ [m]
    | None =>
        preview true w = (Ok PreviewNone, w)
        ∧ ∀ net now,
            sent_records (exec (postNextMCQIfAny net now) w) = sent_records w
            ∧ schedulerPaused (exec (postNextMCQIfAny net now) w) = true
    end.
Proof.
  split; [reflexivity|].
  destruct (list_find pending (mcqs (load_doc (db_file w))))
    as [[i m]|] eqn:Hfind.
  - split.
    + unfold preview, mbind, StateExn_bind. cbn.
      rewrite getNextUnpostedMCQ_eq, Hfind. reflexivity.
    + intros net now. by rewrite sent_records_attempt, Hfind.
  - split.
    + unfold preview, mbind, StateExn_bind. cbn.
      rewrite getNextUnpostedMCQ_eq, Hfind. reflexivity.
    + intros net now. rewrite sent_records_attempt, Hfind, app_nil_r.
      split; [reflexivity|]. unfold exec.
      by rewrite (postNextMCQIfAny_empty _ _ _ Hfind), pauseScheduler_eq.
Qed.

(** X11. After start-up and any sequence of events, [/healthz] and
    [/pending] change nothing and report the same pending count, the one
    [countPendingMCQs] returns; when the health report says running,
    exactly one interval is live, and when it says paused, none is.  If
    moreover every upload of the run got its first reply through, the
    health report never says paused while a record is pending. *)
Theorem status_reports_agree Number f es iso_now :
  let w := run Number es (started f) in
  ∃ h,
    healthz iso_now w = (Ok h, w)
    ∧ pending_command w = (Ok ("Pending: " +:+ pretty (health_pending h)), w)
    ∧ countPendingMCQs w = (Ok (health_pending h), w)
    ∧ health_schedulerPaused h = schedulerPaused w
    ∧ (health_schedulerPaused h = true → timers w = [])
    ∧ (health_schedulerPaused h = false → ∃ t, timers w = [t])
    ∧ (acks_delivered es →
       health_schedulerPaused h = true → health_pending h = 0%nat).
Proof.
  intros w.
  exists {| health_ok := true; health_schedulerPaused := schedulerPaused w;
            health_pending := count_pending (db_file w);
            health_time := iso_now |}.
  destruct (run_sched_inv Number es _ (sched_inv_started f)) as [Hp Ht].
  fold w in Hp, Ht. cbn [health_pending health_schedulerPaused].
  split_and!; try reflexivity.
  - intros Hpaused. rewrite Ht. by rewrite (proj1 Hp Hpaused).
  - intros Hrun. rewrite Ht.
    destruct (schedulerHandle w) as [t|]; [by exists t|].
    rewrite (proj2 Hp eq_refl) in Hrun. discriminate.
  - intros Hacks.
    apply (paused_means_empty_run Number es _ Hacks
             (paused_means_empty_started f)).
Qed.

Lemma status_reports_agree_witness :
  let es := [Upload true ["Q"; "a"; "b"; "0"] 7 100 Delivered Delivered] in
  let w := run Number_digits es (started None) in
  ∃ h, healthz "t" w = (Ok h, w)
       ∧ health_schedulerPaused h = false
       ∧ ∃ t, timers w = [t].
Proof.
  intros es w.
  destruct (status_reports_agree Number_digits None es "t")
    as (h & Hh & _ & _ & Hp & _ & Hrun & _).
  exists h. split; [exact Hh|].
  assert (health_schedulerPaused h = false) as Hf by (by rewrite Hp).
  split; [exact Hf | exact (Hrun Hf)].
Defined.

(** ** When an upload is queued *)


Section UploadCases.
Variable Number : string → JsNumber.

End UploadCases.





(** ** The older variants *)


Lemma legacy_load_store db :
  Legacy.nextId db ≠ 0 → Legacy.load_doc (Legacy.store_doc db) = db.
Proof.
  destruct db as [n l]. cbn. intros Hn. unfold falsy, Z_falsy.
  by destruct (Z.eqb_spec n 0).
Qed.

Lemma legacy_addMCQ_eq question options correctIndex uploader w :
  Legacy.addMCQ question options correctIndex uploader w =
  let db := Legacy.load_doc (Legacy.db_file w) in
  let entry := Legacy.mkMCQ (Legacy.nextId db) question options correctIndex
                            uploader in
  (Ok entry,
   exec (Legacy.saveDB {| Legacy.nextId := js_add (Legacy.nextId db) 1;
                          Legacy.mcqs := Legacy.mcqs db ++ [entry] |}) w).
Proof. reflexivity. Qed.

Lemma legacy_removeMCQ_eq k w :
  Legacy.removeMCQ k w =
  let db := Legacy.load_doc (Legacy.db_file w) in
  (Ok tt,
   exec (Legacy.saveDB {| Legacy.nextId := Legacy.nextId db;
                          Legacy.mcqs := filter (λ q, Legacy.id q ≠ k)
                                                (Legacy.mcqs db) |}) w).
Proof. reflexivity. Qed.

Lemma legacy_postNextQuestion_eq msg poll w :
  Legacy.postNextQuestion msg poll w =
  match head (Legacy.mcqs (Legacy.load_doc (Legacy.db_file w))) with
  | None =>
      (Ok tt,
       {| Legacy.db_file := Legacy.db_file w; Legacy.schedulerPaused := true;
          Legacy.schedulerTimer := Legacy.schedulerTimer w;
          Legacy.timers := Legacy.timers w;
          Legacy.timer_seq := Legacy.timer_seq w;
          Legacy.replies := Legacy.replies w |})
  | Some m =>
      match msg, poll with
      | Rejected err, _ => (Throw err, w)
      | Resolved _, Rejected err => (Throw err, w)
      | Resolved _, Resolved _ => Legacy.removeMCQ (Legacy.id m) w
      end
  end.
Proof.
  unfold Legacy.postNextQuestion, mbind at 1, StateExn_bind at 1.
  rewrite getNextMCQ_eq.
  destruct (head _) as [m|]; [|reflexivity].
  destruct msg as [err|r]; [reflexivity|].
  destruct poll as [err|r']; reflexivity.
Qed.



Lemma legacy_fresh_nonzero db : legacy_fresh db → Legacy.nextId db ≠ 0.
Proof. intros [Hn _]. lia. Qed.

Lemma legacy_load_after_add question options correctIndex uploader w :
  legacy_fresh (Legacy.load_doc (Legacy.db_file w)) →
  Legacy.nextId (Legacy.load_doc (Legacy.db_file w)) < MAX_SAFE →
  let db := Legacy.load_doc (Legacy.db_file w) in
  let w' := (Legacy.addMCQ question options correctIndex uploader w).2 in
  Legacy.load_doc (Legacy.db_file w')
  = {| Legacy.nextId := Legacy.nextId db + 1;
       Legacy.mcqs := Legacy.mcqs db
                      ++ [Legacy.mkMCQ (Legacy.nextId db) question options
                                       correctIndex uploader] |}
  ∧ legacy_fresh (Legacy.load_doc (Legacy.db_file w')).
Proof.
  intros [Hn Hall] Hlt db w'. subst w'. rewrite legacy_addMCQ_eq. cbn zeta.
  cbn [snd exec Legacy.saveDB modify Legacy.db_file]. fold db.
  fold db in Hn, Hlt.
  assert (- MAX_SAFE ≤ 0) as Hneg by (vm_compute; discriminate).
  rewrite js_add_succ by lia.
  assert (Legacy.load_doc (Legacy.store_doc
            {| Legacy.nextId := Legacy.nextId db + 1;
               Legacy.mcqs := Legacy.mcqs db
                 ++ [Legacy.mkMCQ (Legacy.nextId db) question options
                                  correctIndex uploader] |}) = _) as Heq
    by (apply legacy_load_store; cbn; lia).
  split; [exact Heq|]. rewrite Heq. split; cbn; [lia|].
  apply Forall_app. split.
  - eapply Forall_impl; [exact Hall|]. cbn. fold db. intros; lia.
  - apply Forall_singleton. cbn. lia.
Qed.

Lemma legacy_load_after_remove k w :
  legacy_fresh (Legacy.load_doc (Legacy.db_file w)) →
  let db := Legacy.load_doc (Legacy.db_file w) in
  let w' := exec (Legacy.removeMCQ k) w in
  Legacy.load_doc (Legacy.db_file w')
  = {| Legacy.nextId := Legacy.nextId db;
       Legacy.mcqs := filter (λ q, Legacy.id q ≠ k) (Legacy.mcqs db) |}
  ∧ legacy_fresh (Legacy.load_doc (Legacy.db_file w')).
Proof.
  intros [Hn Hall] db w'. subst w'. unfold exec at 1 2.
  rewrite legacy_removeMCQ_eq. cbn zeta.
  cbn [snd exec Legacy.saveDB modify Legacy.db_file]. fold db.
  assert (Legacy.load_doc (Legacy.store_doc
            {| Legacy.nextId := Legacy.nextId db;
               Legacy.mcqs := filter (λ q, Legacy.id q ≠ k)
                                     (Legacy.mcqs db) |}) = _) as Heq
    by (apply legacy_load_store; cbn; fold db in Hn; lia).
  split; [exact Heq|]. rewrite Heq. split; cbn; [exact Hn|].
  apply Forall_forall. intros q [_ Hq]%list_elem_of_filter.
  rewrite Forall_forall in Hall. by apply Hall.
Qed.

Lemma legacy_run_store_ids ops : ∀ w,
  legacy_fresh (Legacy.load_doc (Legacy.db_file w)) →
  Legacy.nextId (Legacy.load_doc (Legacy.db_file w)) + Z.of_nat (length ops)
    ≤ MAX_SAFE →
  let r := legacy_run_store ops w in
  StronglySorted Z.lt r.1
  ∧ Forall (λ i, Legacy.nextId (Legacy.load_doc (Legacy.db_file w)) ≤ i) r.1
  ∧ legacy_fresh (Legacy.load_doc (Legacy.db_file r.2))
  ∧ Legacy.nextId (Legacy.load_doc (Legacy.db_file r.2))
    ≤ Legacy.nextId (Legacy.load_doc (Legacy.db_file w))
      + Z.of_nat (length ops).
Proof.
  induction ops as [|[q o c u|k] ops IH]; intros w Hfresh Hbound;
    cbn [length] in Hbound.
  - cbn. split_and!; [constructor | constructor | exact Hfresh | lia].
  - cbn [legacy_run_store].
    destruct (legacy_load_after_add q o c u w Hfresh) as [Hload Hfresh1];
      [lia|].
    rewrite legacy_addMCQ_eq in *. cbn zeta in *. cbn [snd] in Hload, Hfresh1.
    set (w1 := exec _ w) in *.
    destruct (IH w1 Hfresh1) as (Hs & Hge & Hf & Hle).
    { rewrite Hload. cbn [Legacy.nextId]. lia. }
    rewrite Hload in Hge, Hle. cbn [Legacy.nextId] in Hge, Hle.
    destruct (legacy_run_store ops w1) as [given w2]. cbn [fst snd length] in *.
    split_and!.
    + constructor; [exact Hs|].
      eapply Forall_impl; [exact Hge|]. cbn. intros; lia.
    + constructor; [cbn; lia|].
      eapply Forall_impl; [exact Hge|]. cbn. intros; lia.
    + exact Hf.
    + lia.
  - cbn [legacy_run_store].
    destruct (legacy_load_after_remove k w Hfresh) as [Hload Hfresh1].
    destruct (IH _ Hfresh1) as (Hs & Hge & Hf & Hle).
    { rewrite Hload. cbn [Legacy.nextId]. lia. }
    rewrite Hload in Hge, Hle. cbn [Legacy.nextId] in Hge, Hle.
    cbn [length]. split_and!; [done | done | done | lia].
Qed.

(** X14. In the older variants ids are never reused, removals included,
    as long as the counter stays within the integers that the language
    counts exactly: starting from a document with a positive counter above
    its ids, and with the counter plus the number of operations at most
    2^53, the ids handed out by any sequence of appends and removals are
    strictly increasing, hence distinct, and each is above every id the
    document held at the start; the final document again has its ids below
    its counter. *)
Theorem legacy_ids_never_reused ops w :
  legacy_fresh (Legacy.load_doc (Legacy.db_file w)) →
  Legacy.nextId (Legacy.load_doc (Legacy.db_file w)) + Z.of_nat (length ops)
    ≤ MAX_SAFE →
  let given := (legacy_run_store ops w).1 in
  let w' := (legacy_run_store ops w).2 in
  StronglySorted Z.lt given
  ∧ NoDup given
  ∧ Forall (λ i, Forall (λ q, Legacy.id q < i)
                        (Legacy.mcqs (Legacy.load_doc (Legacy.db_file w))))
           given
  ∧ legacy_fresh (Legacy.load_doc (Legacy.db_file w')).
Proof.
  intros Hfresh Hbound given w'.
  destruct (legacy_run_store_ids ops w Hfresh Hbound) as (Hs & Hge & Hf & _).
  split_and!; [exact Hs | by apply sorted_lt_NoDup | | exact Hf].
  eapply Forall_impl; [exact Hge|]. cbn. intros i Hi.
  eapply Forall_impl; [exact (proj2 Hfresh)|]. cbn. intros; lia.
Qed.

Lemma legacy_ids_never_reused_witness :
  let ops := [LegacyAdd "Q1" ["a"; "b"] (JsInt 0) 7; LegacyRemove 1;
              LegacyAdd "Q2" ["a"; "b"] (JsInt 1) 7; LegacyRemove 2;
              LegacyAdd "Q3" ["a"; "b"] (JsInt 1) 7] in
  legacy_fresh (Legacy.load_doc (Legacy.db_file (Legacy.boot None)))
  ∧ Legacy.nextId (Legacy.load_doc (Legacy.db_file (Legacy.boot None)))
    + Z.of_nat (length ops) ≤ MAX_SAFE
  ∧ (legacy_run_store ops (Legacy.boot None)).1 = [1; 2; 3]
  ∧ NoDup (legacy_run_store ops (Legacy.boot None)).1.
Proof.
  intros ops.
  assert (legacy_fresh (Legacy.load_doc (Legacy.db_file (Legacy.boot None))))
    as H0 by (split; [cbn; lia | constructor]).
  assert (Legacy.nextId (Legacy.load_doc (Legacy.db_file (Legacy.boot None)))
          + Z.of_nat (length ops) ≤ MAX_SAFE) as H1
    by (vm_compute; discriminate).
  split; [exact H0|]. split; [exact H1|]. split; [reflexivity|].
  apply (legacy_ids_never_reused ops (Legacy.boot None) H0 H1).
Defined.

(** At the edge of that range the older variants repeat an id as well:
    with the counter at 2^53 two appends hand out the same id. *)
Lemma legacy_append_repeats_id_at_2_53 :
  let w := Legacy.boot (Legacy.store_doc (Legacy.mkDB (2 ^ 53) [])) in
  let ops := [LegacyAdd "Q1" ["a"; "b"] (JsInt 0) 7;
              LegacyAdd "Q2" ["a"; "b"] (JsInt 1) 7] in
  legacy_fresh (Legacy.load_doc (Legacy.db_file w))
  ∧ (legacy_run_store ops w).1 = [2 ^ 53; 2 ^ 53].
Proof.
  intros w ops. split; [|reflexivity].
  split; [vm_compute; discriminate | constructor].
Qed.

Lemma legacy_timer_inv_start w :
  legacy_timer_inv w → legacy_timer_inv (exec Legacy.startScheduler w).
Proof.
  intros [Ht _]. unfold exec, Legacy.startScheduler, mbind, StateExn_bind,
    modify. cbn. split; [|discriminate]. cbn.
  destruct (Legacy.schedulerTimer w) as [h|]; cbn in *; rewrite Ht; cbn.
  - by rewrite decide_False by (intros Hne; by apply Hne).
  - reflexivity.
Qed.

Lemma legacy_timer_inv_same w w' :
  Legacy.timers w' = Legacy.timers w →
  Legacy.schedulerTimer w' = Legacy.schedulerTimer w →
  Legacy.schedulerPaused w' = Legacy.schedulerPaused w →
  legacy_timer_inv w → legacy_timer_inv w'.
Proof. unfold legacy_timer_inv. by intros -> -> ->. Qed.

Lemma legacy_timer_inv_enqueue question options correctIndex from w :
  legacy_timer_inv w →
  legacy_timer_inv (exec (Legacy.enqueue question options correctIndex from) w).
Proof.
  intros Hinv. unfold exec, Legacy.enqueue, mbind at 1, StateExn_bind at 1.
  rewrite legacy_addMCQ_eq. cbn zeta.
  unfold mbind, StateExn_bind, Legacy.reply, modify, gets, exec, Legacy.saveDB.
  cbn. destruct (Legacy.schedulerPaused w) eqn:Hp.
  - match goal with
    | |- legacy_timer_inv (Legacy.startScheduler ?v).2 =>
        apply (legacy_timer_inv_start v)
    end.
    by apply (legacy_timer_inv_same w).
  - cbn. by apply (legacy_timer_inv_same w).
Qed.

Lemma legacy_timer_inv_tick msg poll w :
  legacy_timer_inv w →
  legacy_timer_inv (exec (Legacy.postNextQuestion msg poll) w).
Proof.
  intros Hinv. unfold exec. rewrite legacy_postNextQuestion_eq.
  destruct (head _) as [m|].
  - destruct msg as [err|r]; [exact Hinv|].
    destruct poll as [err|r']; [exact Hinv|].
    rewrite legacy_removeMCQ_eq. cbn. by apply (legacy_timer_inv_same w).
  - cbn. destruct Hinv as [Ht _]. by split.
Qed.

Section LegacyLoop.
Variable Number : string → JsNumber.

Lemma legacy_timer_inv_handle e w :
  legacy_timer_inv w → legacy_timer_inv (exec (Legacy.handle Number e) w).
Proof.
  intros Hinv. destruct e as [private pieces from | h msg poll];
    unfold exec; cbn [Legacy.handle].
  - unfold Legacy.upload.
    destruct private; cbn [negb]; [|by apply (legacy_timer_inv_same w)].
    destruct (decide (pieces = [""])); [by apply (legacy_timer_inv_same w)|].
    destruct (decide (length (filter (λ p, p ≠ "") pieces) < 3)%nat);
      [by apply (legacy_timer_inv_same w)|].
    cbn [pop shift].
    destruct (Legacy.validate _ _); [by apply (legacy_timer_inv_same w)|].
    by apply legacy_timer_inv_enqueue.
  - unfold mbind, StateExn_bind, gets.
    destruct (decide (h ∈ Legacy.timers w)); [|exact Hinv].
    by apply legacy_timer_inv_tick.
Qed.

Lemma legacy_timer_inv_run es w :
  legacy_timer_inv w → legacy_timer_inv (Legacy.run Number es w).
Proof.
  revert w. induction es as [|e es IH]; intros w Hinv; cbn; [exact Hinv|].
  by apply IH, legacy_timer_inv_handle.
Qed.
End LegacyLoop.

(** X15. In the older variants at most one interval is ever live: after
    any sequence of uploads and ticks (rejected ones included) the live
    intervals are exactly the one held in [schedulerTimer], if any, and
    whenever the scheduler is flagged as running that interval is live. *)
Theorem legacy_one_interval Number es f :
  let w := Legacy.run Number es (Legacy.boot f) in
  Legacy.timers w = option_list (Legacy.schedulerTimer w)
  ∧ (length (Legacy.timers w) ≤ 1)%nat
  ∧ (Legacy.schedulerPaused w = false → ∃ h, Legacy.timers w = [h]).
Proof.
  intros w.
  assert (legacy_timer_inv (Legacy.boot f)) as H0 by (by split).
  destruct (legacy_timer_inv_run Number es _ H0) as [Ht Hrun]. fold w in Ht, Hrun.
  split; [exact Ht|]. rewrite Ht. split.
  - destruct (Legacy.schedulerTimer w); cbn; lia.
  - intros Hp. specialize (Hrun Hp).
    destruct (Legacy.schedulerTimer w) as [h|]; [by exists h | done].
Qed.

Lemma legacy_one_interval_witness :
  let es := [Legacy.Upload true ["Q"; "a"; "b"; "0"] 7;
             Legacy.TimerFires 0%nat (Resolved None) (Resolved None);
             Legacy.Upload true ["R"; "a"; "b"; "1"] 7] in
  let w := Legacy.run Number_digits es (Legacy.boot None) in
  Legacy.schedulerPaused w = false ∧ ∃ h, Legacy.timers w = [h].
Proof.
  intros es w. assert (Legacy.schedulerPaused w = false) as Hp by reflexivity.
  split; [exact Hp|].
  exact (proj2 (proj2 (legacy_one_interval Number_digits es None)) Hp).
Defined.

(** ** Marking an id that is not stored *)

(** X16. [markMCQPosted] with an id that no stored record has is a no-op:
    it returns normally, the file is not rewritten (an absent file stays
    absent), no record changes and the scheduler is untouched. *)
Theorem mark_posted_unknown_id mcq_id pollId now w :
  mcq_id ∉ ids (mcqs (load_doc (db_file w))) →
  let w' := exec (markMCQPosted mcq_id pollId now) w in
  (markMCQPosted mcq_id pollId now w).1 = Ok tt
  ∧ db_file w' = db_file w
  ∧ count_pending (db_file w') = count_pending (db_file w)
  ∧ same_scheduler w w'.
Proof.
  intros Hnotin w'.
  assert (list_find (λ m, id m = mcq_id) (mcqs (load_doc (db_file w))) = None)
    as Hnone.
  { apply list_find_None, Forall_forall. intros m Hm Hid. apply Hnotin.
    rewrite <- Hid. by apply list_elem_of_fmap_2. }
  subst w'. unfold exec. rewrite (markMCQPosted_missing _ _ _ _ Hnone).
  by repeat split.
Qed.

Lemma mark_posted_unknown_id_witness :
  let w' := exec (markMCQPosted 9 (Some "p") 100) (boot None) in
  (9 ∉ ids (mcqs (load_doc (db_file (boot None)))))
  ∧ db_file w' = None.
Proof.
  intros w'.
  assert (9 ∉ ids (mcqs (load_doc (db_file (boot None))))) as H.
  { apply not_elem_of_nil. }
  split; [exact H|].
  apply (mark_posted_unknown_id 9 (Some "p") 100 (boot None) H).
Defined.
